(** * ttl-flat-cache: a TTL layer over a persisted key-value store

    Shallow embedding of the class [Cache] of [src/index.ts] (module [TS])
    and of the JavaScript implementation of the same class (module [JS]),
    with the properties of the specification stated and proved over them.

    Conventions.
    - State is passed explicitly: a method that mutates [this.cache] returns
      the cache it leaves behind, next to its JavaScript result.
    - Every method that reads the wall clock ([dayjs()]) takes the reading as
      its first argument [now], in milliseconds since the epoch; a method
      reads the clock once.
    - JavaScript numbers are exact rationals plus [NaN] and the two
      infinities; no property below depends on rounding.
    - What the store holds under a key is an envelope [{ expires, value }]
      written by [set], or a plain value: [all()] works on the store's own
      object and leaves plain values in it. An envelope's [expires] is a
      [Date] or [null]; a [Date] may be the invalid date, which [set]
      produces from a TTL too large for a time value.
    - The packages the class calls (flat-cache, dayjs) and Node's [fs], [os]
      and [path] are not part of the sources. The store is the flat-cache
      object the class holds; dayjs's arithmetic follows ECMAScript time
      values; the file system, the path functions, the disk contents,
      dayjs's parser and its formatter are parameters ([Host]).
    - [save] only forwards to the store's persist operation and is left
      out. *)

From Stdlib Require Import ZArith QArith Qabs Lia.
From stdpp Require Import base option strings gmap fin_maps.

Local Open Scope string_scope.

(** ** JavaScript data *)

Inductive number := NaN | PosInf | NegInf | Fin (q : Q).

Definition isNaN (n : number) : bool :=
  match n with NaN => true | _ => false end.

(** ToBoolean on a number: [NaN] and zero are falsy. *)
Definition truthy_number (n : number) : bool :=
  match n with
  | NaN => false
  | Fin q => negb (Qnum q =? 0)%Z
  | PosInf | NegInf => true
  end.

(** [a || b] on numbers. *)
Definition or_else (a b : number) : number :=
  if truthy_number a then a else b.

(** The payloads a caller may store ([value: any]). *)
#[local] Unset Elimination Schemes.
Inductive jsval :=
| JUndefined
| JNull
| JBool (b : bool)
| JNum (n : number)
| JStr (s : string)
| JArr (items : list jsval)
| JObj (fields : list (string * jsval)).
#[local] Set Elimination Schemes.

(** ToBoolean on a value. *)
Definition truthy_jsval (v : jsval) : bool :=
  match v with
  | JUndefined | JNull => false
  | JBool b => b
  | JNum n => truthy_number n
  | JStr s => negb (String.eqb s "")
  | JArr _ | JObj _ => true
  end.

(** A value is [null] or [undefined]: reading a property of it throws. *)
Definition nullish_jsval (v : jsval) : bool :=
  match v with
  | JUndefined | JNull => true
  | _ => false
  end.

Fixpoint lookup_field (name : string) (fields : list (string * jsval))
  : jsval :=
  match fields with
  | [] => JUndefined
  | (n, v) :: rest => if String.eqb n name then v else lookup_field name rest
  end.

(** [v.name] for [name] one of [expires] and [value], which no built-in
    prototype defines: the field of an object, [undefined] on any other
    value. On [null] and [undefined] the program throws instead; the callers
    below test for them first. *)
Definition property (v : jsval) (name : string) : jsval :=
  match v with
  | JObj fields => lookup_field name fields
  | _ => JUndefined
  end.

(** What reaches [Number(...)] in the class: [ttl?: number] and
    [defaultTTL: number | null]. *)
Inductive ttl_input := TUndefined | TNull | TNum (n : number).

Definition Number (val : ttl_input) : number :=
  match val with
  | TUndefined => NaN
  | TNull => Fin 0
  | TNum n => n
  end.

(** [function to_num(val) { return !isNaN(Number(val)) ? Number(val) : 0; }] *)
Definition to_num (val : ttl_input) : number :=
  if negb (isNaN (Number val)) then Number val else Fin 0.

(** A [Date] object: a time value in milliseconds, or the invalid date. *)
Inductive Date := ValidDate (ms : Z) | InvalidDate.

(** ECMAScript TimeClip, applied by [new Date(t)]: out of range gives the
    invalid date, otherwise the fraction is dropped towards zero. *)
Definition TimeClip (t : Q) : Date :=
  if Qle_bool (Qabs t) 8640000000000000
  then ValidDate (Z.quot (Qnum t) (Z.pos (Qden t)))
  else InvalidDate.

(** The envelope stored under each key: [{ expires, value }]. *)
Record CacheEntry := { expires : option Date; value : jsval }.

(** Result of a method typed [boolean | string]. *)
Inductive bool_or_string := Boolean (b : bool) | Text (s : string).

Definition truthy (r : bool_or_string) : bool :=
  match r with
  | Boolean b => b
  | Text s => negb (String.eqb s "")
  end.

Definition to_jsval (r : bool_or_string) : jsval :=
  match r with
  | Boolean b => JBool b
  | Text s => JStr s
  end.

(** A property of the store's object: the envelope [set] wrote, or the
    plain value [all()] put in its place. *)
Inductive slot := Wrapped (e : CacheEntry) | Unwrapped (v : jsval).

(** [data] in [data && ...] and [data ? ... : ...]. *)
Definition slot_truthy (s : slot) : bool :=
  match s with
  | Wrapped _ => true
  | Unwrapped v => truthy_jsval v
  end.

(** [data[key].expires] throws a TypeError. *)
Definition nullish (s : slot) : bool :=
  match s with
  | Wrapped _ => false
  | Unwrapped v => nullish_jsval v
  end.

(** [data.value] *)
Definition slot_value (s : slot) : jsval :=
  match s with
  | Wrapped e => value e
  | Unwrapped v => property v "value"
  end.

(** What [ttl(key)] returns: [{ key, expires }]. *)
Module TtlInfo.
Record t := { key : string; expires : jsval }.
End TtlInfo.

(** How a method call ends: with a result, or with the TypeError of a
    property read on [null] or [undefined]. *)
Inductive completion (A : Type) := Returned (a : A) | TypeError.
Arguments Returned {A} a.
Arguments TypeError {A}.

(** ** The host: Node's [fs], [os], [path], the disk, and dayjs's parser and
    formatter *)

Class Host := {
  tmpdir : string;
  existsSync : string -> bool;
  dirname : string -> string;
  join : list string -> string;
  (** what is on disk for a namespace and directory when the store is opened *)
  disk : string -> string -> gmap string slot;
  (** [dayjs(x)] for a truthy [x] that is not a [Date] object *)
  parse : jsval -> Date;
  (** [dayjs.duration(ms).humanize(true)] *)
  humanize : number -> string
}.

(** [data.expires] as the guards and [isExpired] take it: the envelope's
    [Date] or [null]; for a plain value its [expires] property, which
    [if (expires)] passes to [dayjs] only when truthy. *)
Definition slot_expires `{Host} (s : slot) : option Date :=
  match s with
  | Wrapped e => expires e
  | Unwrapped v =>
      if truthy_jsval (property v "expires")
      then Some (parse (property v "expires"))
      else None
  end.

(** ** dayjs *)

Module dayjs.

(** [dayjs().add(n, "seconds").toDate()] with [dayjs()] reading [now]. *)
Definition add_seconds (now : Z) (n : number) : Date :=
  match n with
  | Fin q => TimeClip (inject_Z now + q * 1000)
  | _ => InvalidDate
  end.

(** [now.isAfter(exp)]: a comparison of time values, false against the
    invalid date. *)
Definition isAfter (now : Z) (exp : Date) : bool :=
  match exp with
  | ValidDate t => (t <? now)%Z
  | InvalidDate => false
  end.

(** [exp.diff(now)] in milliseconds. *)
Definition diff (exp : Date) (now : Z) : number :=
  match exp with
  | ValidDate t => Fin (inject_Z (t - now))
  | InvalidDate => NaN
  end.

End dayjs.

(** ** The persisted store (flat-cache) *)

Module flatCache.

(** Modelled from the spec: the store handle of the PersistentStore
    collaborator (the flat-cache package, which is not part of the
    sources): a mapping from keys to what was stored, bound to a namespace
    and a directory. *)
Record Store := {
  docId : string;
  cacheDir : string;
  persisted : gmap string slot
}.

(** The store after a write to its object. *)
Definition with_persisted (s : Store) (m : gmap string slot) : Store :=
  {| docId := docId s; cacheDir := cacheDir s; persisted := m |}.

(** Modelled from the spec: [load(namespace, directory)] opens or creates
    the store and observes what was persisted there. *)
Definition load `{Host} (ns dir : string) : Store :=
  {| docId := ns; cacheDir := dir; persisted := disk ns dir |}.

(** Modelled from the spec: [getEntry(key)], what is stored under the key
    or [undefined]. *)
Definition getKey (key : string) (s : Store) : option slot :=
  persisted s !! key.

(** Modelled from the spec: [setEntry(key, entry)]. *)
Definition setKey (key : string) (data : slot) (s : Store) : Store :=
  with_persisted s (<[key := data]> (persisted s)).

(** [removeKey(key)] of the package deletes the key and returns nothing:
    the caller gets [undefined], where the specification's contract has a
    boolean. *)
Definition removeKey (key : string) (s : Store) : jsval * Store :=
  (JUndefined, with_persisted s (delete key (persisted s))).

(** [all()] of the package returns the store's own object, where the
    specification's contract has a snapshot: what the caller reads in it is
    the store's mapping, and what the caller writes to it, [with_persisted]
    writes to the store. *)
Definition all (s : Store) : gmap string slot := persisted s.

(** Modelled from the spec: [destroy()] deletes all state of the store. *)
Definition destroy (s : Store) : Store := with_persisted s ∅.

End flatCache.

(** [Object.keys(data)], and the keys a [for (key in data)] visits. The
    order of the visit is the map's own; a turn of either loop acts on the
    key it visits only, so the order shows in nothing but how far a call
    that throws has come. *)
Definition keys (data : gmap string slot) : list string :=
  (map_to_list data).*1.

(** ** src/index.ts *)

Module TS.

(** [options]: a field is [None] when the caller left it out. *)
Record CacheOptions := {
  o_ns : option string;
  o_dir : option string;
  o_ttl : option ttl_input
}.

Record Cache := {
  dir : string;
  ns : string;
  defaultTTL : ttl_input;
  cache : flatCache.Store
}.

Definition with_cache (c : Cache) (s : flatCache.Store) : Cache :=
  {| dir := dir c; ns := ns c; defaultTTL := defaultTTL c; cache := s |}.

Section Methods.
Context `{Host}.

(** [constructor(options)]: [dir && fs.existsSync(path.dirname(dir))]
    decides between the caller's directory and the default one; a [ttl]
    left out is [undefined]. *)
Definition constructor (options : CacheOptions) : Cache :=
  let ns := default "default" (o_ns options) in
  let ttl := default TUndefined (o_ttl options) in
  let cacheDir :=
    match o_dir options with
    | Some dir =>
        if negb (String.eqb dir "") && existsSync (dirname dir)
        then dir
        else join [tmpdir; "cache"; ns]
    | None => join [tmpdir; "cache"; ns]
    end in
  {| dir := cacheDir;
     ns := ns;
     defaultTTL :=
       if negb (isNaN (Number ttl)) then TNum (Number ttl) else TNull;
     cache := flatCache.load ns cacheDir |}.

(** [isExpired(expires, returnTTL = false)] *)
Definition isExpired (expires : option Date) (returnTTL : bool) (now : Z)
  : bool_or_string :=
  match expires with
  | Some exp =>
      if returnTTL
      then Text (humanize (dayjs.diff exp now))
      else Boolean (dayjs.isAfter now exp)
  | None => Boolean false
  end.

(** [invalidateKey(key)] *)
Definition invalidateKey (now : Z) (key : string) (c : Cache)
  : jsval * Cache :=
  match flatCache.getKey key (cache c) with
  | Some data =>
      if slot_truthy data then
        match slot_expires data with
        | Some _ =>
            if truthy (isExpired (slot_expires data) false now)
            then (JNull, with_cache c (flatCache.removeKey key (cache c)).2)
            else
              let remainingTTL := isExpired (slot_expires data) true now in
              (if truthy remainingTTL then to_jsval remainingTTL else JNull,
               c)
        | None => (JNull, c)
        end
      else (JNull, c)
  | None => (JNull, c)
  end.

(** One turn of the [forEach] callback of [all()]. [st.1] tells that a
    TypeError has left the loop; [data] is the store's own object, so
    [delete data[key]] and [data[key] = data[key].value] are writes to the
    store. *)
Definition all_step (now : Z) (st : bool * Cache) (key : string)
  : bool * Cache :=
  if st.1 then st
  else
    let data := flatCache.all (cache st.2) in
    match data !! key with
    | Some entry =>
        if nullish entry then (true, st.2)
        else if truthy (isExpired (slot_expires entry) false now)
        then
          let deleted := flatCache.with_persisted (cache st.2)
                           (delete key data) in
          (false, with_cache st.2 (flatCache.removeKey key deleted).2)
        else
          (false,
           with_cache st.2
             (flatCache.with_persisted (cache st.2)
                (<[key := Unwrapped (slot_value entry)]> data)))
    | None => (true, st.2)
    end.

(** [all()]: the object it returns is the store's. *)
Definition all (now : Z) (c : Cache)
  : completion (gmap string slot) * Cache :=
  let data := flatCache.all (cache c) in
  let r := foldl (all_step now) (false, c) (keys data) in
  (if r.1 then TypeError else Returned (flatCache.all (cache r.2)), r.2).

(** [get(key)] *)
Definition get (now : Z) (key : string) (c : Cache) : jsval * Cache :=
  let c1 := (invalidateKey now key c).2 in
  match flatCache.getKey key (cache c1) with
  | Some data => (if slot_truthy data then slot_value data else JNull, c1)
  | None => (JNull, c1)
  end.

(** [del(key): void]: the caller sees [undefined]. *)
Definition del (key : string) (c : Cache) : jsval * Cache :=
  (JUndefined, with_cache c (flatCache.removeKey key (cache c)).2).

(** [ttl(key)] *)
Definition ttl (now : Z) (key : string) (c : Cache) : TtlInfo.t * Cache :=
  let r := invalidateKey now key c in
  ({| TtlInfo.key := key; TtlInfo.expires := r.1 |}, r.2).

(** [const effectiveTTL = to_num(ttl) || to_num(this.defaultTTL)] *)
Definition effectiveTTL (ttl : ttl_input) (c : Cache) : number :=
  or_else (to_num ttl) (to_num (defaultTTL c)).

(** [set(key, value, ttl?)] *)
Definition set (now : Z) (key : string) (value : jsval) (ttl : ttl_input)
    (c : Cache) : Cache :=
  let effectiveTTL := effectiveTTL ttl c in
  let data :=
    {| expires :=
         if truthy_number effectiveTTL
         then Some (dayjs.add_seconds now effectiveTTL)
         else None;
       value := value |} in
  with_cache c (flatCache.setKey key (Wrapped data) (cache c)).

(** [destroy()] *)
Definition destroy (c : Cache) : Cache :=
  with_cache c (flatCache.destroy (cache c)).

End Methods.

End TS.

(** ** The JavaScript implementation of the same class *)

(** It takes the same options, and has no [destroy]. *)

Module JS.

Record Cache := {
  defaultTTL : ttl_input;
  cache : flatCache.Store
}.

Definition with_cache (c : Cache) (s : flatCache.Store) : Cache :=
  {| defaultTTL := defaultTTL c; cache := s |}.

Section Methods.
Context `{Host}.

(** [constructor(options)]. [Object.assign] supplies ["default"] and
    [null] for the options left out; the second assignment to [dir]
    follows the first unconditionally. *)
Definition constructor (options : TS.CacheOptions) : Cache :=
  let ns := default "default" (TS.o_ns options) in
  let ttl := default TNull (TS.o_ttl options) in
  let ns := if String.eqb ns "" then "default" else ns in
  let dir :=
    match TS.o_dir options with
    | Some dir =>
        if negb (String.eqb dir "") && existsSync (dirname dir)
        then Some dir
        else None
    | None => None
    end in
  let dir := join [tmpdir; "cache"; ns] in
  {| defaultTTL :=
       if isNaN (Number ttl) then TNull else TNum (Number ttl);
     cache := flatCache.load ns dir |}.

(** [__isExpired(expires, returnTTL = false)] *)
Definition __isExpired (expires : option Date) (returnTTL : bool)
    (now : Z) : bool_or_string :=
  match expires with
  | Some exp =>
      if returnTTL
      then Text (humanize (dayjs.diff exp now))
      else Boolean (dayjs.isAfter now exp)
  | None => Boolean false
  end.

(** [__invalidateKey(key)]: falls off the end, so [undefined], when
    there is no entry or no expiry. *)
Definition __invalidateKey (now : Z) (key : string) (c : Cache)
  : jsval * Cache :=
  match flatCache.getKey key (cache c) with
  | Some data =>
      if slot_truthy data then
        match slot_expires data with
        | Some _ =>
            if truthy (__isExpired (slot_expires data) false now)
            then (JNull, with_cache c (flatCache.removeKey key (cache c)).2)
            else
              let remainingTTL := __isExpired (slot_expires data) true now in
              (if truthy remainingTTL then to_jsval remainingTTL else JNull,
               c)
        | None => (JUndefined, c)
        end
      else (JUndefined, c)
  | None => (JUndefined, c)
  end.

(** One turn of the [for (const key in data)] loop of [all()], on the
    store's own object: [data[key] = null], then [removeKey(key)] deletes
    the property just written. *)
Definition all_step (now : Z) (st : bool * Cache) (key : string)
  : bool * Cache :=
  if st.1 then st
  else
    let data := flatCache.all (cache st.2) in
    match data !! key with
    | Some entry =>
        if nullish entry then (true, st.2)
        else if truthy (__isExpired (slot_expires entry) false now)
        then
          let nulled := flatCache.with_persisted (cache st.2)
                          (<[key := Unwrapped JNull]> data) in
          (false, with_cache st.2 (flatCache.removeKey key nulled).2)
        else
          (false,
           with_cache st.2
             (flatCache.with_persisted (cache st.2)
                (<[key := Unwrapped (slot_value entry)]> data)))
    | None => (true, st.2)
    end.

(** [all()] *)
Definition all (now : Z) (c : Cache)
  : completion (gmap string slot) * Cache :=
  let data := flatCache.all (cache c) in
  let r := foldl (all_step now) (false, c) (keys data) in
  (if r.1 then TypeError else Returned (flatCache.all (cache r.2)), r.2).

(** [get(key)] *)
Definition get (now : Z) (key : string) (c : Cache) : jsval * Cache :=
  let c1 := (__invalidateKey now key c).2 in
  match flatCache.getKey key (cache c1) with
  | Some data => (if slot_truthy data then slot_value data else JNull, c1)
  | None => (JNull, c1)
  end.

(** [del(key) { return this.cache.removeKey(key); }] *)
Definition del (key : string) (c : Cache) : jsval * Cache :=
  let r := flatCache.removeKey key (cache c) in
  (r.1, with_cache c r.2).

(** [ttl(key)] *)
Definition ttl (now : Z) (key : string) (c : Cache) : TtlInfo.t * Cache :=
  let r := __invalidateKey now key c in
  ({| TtlInfo.key := key; TtlInfo.expires := r.1 |}, r.2).

(** [set(key, value, ttl)] *)
Definition set (now : Z) (key : string) (value : jsval) (ttl : ttl_input)
    (c : Cache) : Cache :=
  let ttl := or_else (to_num ttl) (to_num (defaultTTL c)) in
  let data :=
    {| expires :=
         if truthy_number ttl
         then Some (dayjs.add_seconds now ttl)
         else None;
       value := value |} in
  with_cache c (flatCache.setKey key (Wrapped data) (cache c)).

End Methods.

End JS.

(** ** Vocabulary of the specification *)

(** An expiry timestamp lies in the past at the clock reading [now]. An
    absent or invalid timestamp never does. *)
Definition in_the_past (now : Z) (expires : option Date) : bool :=
  match expires with
  | Some (ValidDate t) => (t <? now)%Z
  | _ => false
  end.



(** "A valid non-negative number (including 0)". *)
Definition valid_non_negative (t : ttl_input) : bool :=
  match t with
  | TNum (Fin q) => Qle_bool 0 q
  | _ => false
  end.

(** A TTL input that [to_num(...) || ...] keeps: a number other than [NaN]
    and zero. *)
Definition usable (t : ttl_input) : bool := truthy_number (Number t).

(** The store a cache holds, as a mapping. *)
Definition entries (c : TS.Cache) : gmap string slot :=
  flatCache.persisted (TS.cache c).

Definition entries_js (c : JS.Cache) : gmap string slot :=
  flatCache.persisted (JS.cache c).

(** The cache [c] holding the mapping [m] in its store, all else equal. *)
Definition with_entries (c : TS.Cache) (m : gmap string slot) : TS.Cache :=
  TS.with_cache c (flatCache.with_persisted (TS.cache c) m).

(** The JavaScript cache [c] holding the mapping [m] in its store. *)
Definition with_entries_js (c : JS.Cache) (m : gmap string slot)
  : JS.Cache :=
  JS.with_cache c (flatCache.with_persisted (JS.cache c) m).

(** The cache [c] after the entry of [k] was removed from its store. *)
Definition evicted (k : string) (c : TS.Cache) : TS.Cache :=
  with_entries c (delete k (entries c)).

(** What a turn of the loop of [all()] makes of what it finds under its
    key, when that is not [null] or [undefined]: nothing if the timestamp
    lies in the past, the plain [value] otherwise. *)
Definition sweep_slot `{Host} (now : Z) (s : slot) : option slot :=
  if in_the_past now (slot_expires s) then None
  else Some (Unwrapped (slot_value s)).

(** What a turn of the loop of [all()] does to the store's mapping; the
    flag tells that a TypeError has left the loop. *)
Definition sweep_step `{Host} (now : Z) (st : bool * gmap string slot)
    (key : string) : bool * gmap string slot :=
  if st.1 then st
  else
    match st.2 !! key with
    | Some s =>
        if nullish s then (true, st.2)
        else
          (false,
           match sweep_slot now s with
           | Some s' => <[key := s']> st.2
           | None => delete key st.2
           end)
    | None => (true, st.2)
    end.

(** The mapping [all()] leaves and returns when it does not throw. *)
Definition swept `{Host} (now : Z) (m : gmap string slot)
  : gmap string slot :=
  omap (sweep_slot now) m.

(** Nothing stored is [null] or [undefined]. *)
Definition no_nullish (m : gmap string slot) : Prop :=
  forall k s, m !! k = Some s -> nullish s = false.

(** A read left the store as it was, up to the removal of entries that had
    expired at [now], and left the rest of the cache alone. *)
Definition evicts_only_expired `{Host} (now : Z) (before after : TS.Cache)
  : Prop :=
  after = with_entries before (entries after)
  /\ forall k,
       entries after !! k = entries before !! k
       \/ (entries after !! k = None
           /\ exists s, entries before !! k = Some s
                        /\ in_the_past now (slot_expires s) = true).

(** Every entry that had not expired at [now], or has no expiry timestamp,
    is stored unchanged afterwards. *)
Definition keeps_live_entries `{Host} (now : Z) (before after : TS.Cache)
  : Prop :=
  forall k s,
    entries before !! k = Some s ->
    in_the_past now (slot_expires s) = false ->
    entries after !! k = Some s.

(** The JavaScript cache and the index.ts cache hold the same entries and
    apply the same default TTL. *)
Definition same_state (cj : JS.Cache) (ct : TS.Cache) : Prop :=
  entries_js cj = entries ct
  /\ to_num (JS.defaultTTL cj) = to_num (TS.defaultTTL ct).

(** [c'] is [c] up to the mapping its store holds: same directory,
    namespace, default TTL and store binding. *)
Definition same_configuration (c c' : TS.Cache) : Prop :=
  c' = with_entries c (entries c').

(** The largest time value a [Date] holds, in milliseconds. *)
Definition max_time : Z := 8640000000000000.

(** A whole number of seconds as a TTL argument. *)
Definition seconds (n : Z) : ttl_input := TNum (Fin (inject_Z n)).

(** ** A host and caches for the examples *)

(** A host whose file system holds [/tmp], [/var] and the working directory,
    with nothing persisted, a parser that knows numbers only, and a
    two-phrase formatter standing for dayjs's. *)
Definition sample_host : Host := {|
  tmpdir := "/tmp";
  existsSync := fun p =>
    String.eqb p "/tmp" || String.eqb p "/var" || String.eqb p ".";
  dirname := fun p =>
    if String.eqb p "/var/data" then "/var"
    else if String.eqb p "/missing/data" then "/missing"
    else ".";
  join := String.concat "/";
  disk := fun _ _ => ∅;
  parse := fun v =>
    match v with
    | JNum (Fin q) => TimeClip q
    | _ => InvalidDate
    end;
  humanize := fun d =>
    match d with
    | Fin q => if Qle_bool 0 q then "in a few seconds" else "a few seconds ago"
    | _ => "Invalid Date"
    end
|}.

Definition no_options : TS.CacheOptions :=
  {| TS.o_ns := None; TS.o_dir := None; TS.o_ttl := None |}.

(** [new Cache()] on the sample host. *)
Definition fresh : TS.Cache := @TS.constructor sample_host no_options.

(** [new Cache({ ttl: 60 })] on the sample host. *)
Definition fresh60 : TS.Cache :=
  @TS.constructor sample_host
    {| TS.o_ns := None; TS.o_dir := None; TS.o_ttl := Some (TNum (Fin 60)) |}.


(** The test suite's expiring key: [set("key", "value", 1)] at clock
    reading 1000, on a fresh cache of each implementation. *)
Definition stale : TS.Cache :=
  TS.set 1000 "key" (JStr "value") (TNum (Fin 1)) fresh.

Definition stale_js : JS.Cache :=
  JS.set 1000 "key" (JStr "value") (TNum (Fin 1))
    (@JS.constructor sample_host no_options).

(** [set("a", 1)] with no TTL on a fresh cache. *)
Definition plain : TS.Cache :=
  TS.set 1000 "a" (JNum (Fin 1)) TUndefined fresh.

(** The expiring key and a key with no expiry in one cache. *)
Definition mixed : TS.Cache :=
  TS.set 1000 "a" (JNum (Fin 1)) TUndefined stale.

(** [set("n", null)] on a fresh cache. *)
Definition holds_null : TS.Cache :=
  TS.set 1000 "n" JNull TUndefined fresh.

(** [{ dir: "/var/data" }]: a directory whose parent exists on the sample
    host. *)
Definition with_dir : TS.CacheOptions :=
  {| TS.o_ns := None; TS.o_dir := Some "/var/data"; TS.o_ttl := None |}.

(** [{ ns: "jobs", ttl: 60 }] *)
Definition jobs_options : TS.CacheOptions :=
  {| TS.o_ns := Some "jobs"; TS.o_dir := None;
     TS.o_ttl := Some (TNum (Fin 60)) |}.

(** [new Cache()] of the JavaScript file on the sample host. *)
Definition fresh_js : JS.Cache := @JS.constructor sample_host no_options.

(** ** Basic facts *)

Lemma with_persisted_id (s : flatCache.Store) :
  flatCache.with_persisted s (flatCache.persisted s) = s.
Proof. by destruct s. Qed.

Lemma with_cache_id (c : TS.Cache) : TS.with_cache c (TS.cache c) = c.
Proof. by destruct c. Qed.

Lemma entries_with_entries (c : TS.Cache) (m : gmap string slot) :
  entries (with_entries c m) = m.
Proof. reflexivity. Qed.

Lemma with_entries_twice (c : TS.Cache) (m m' : gmap string slot) :
  with_entries (with_entries c m) m' = with_entries c m'.
Proof. reflexivity. Qed.

Lemma with_entries_id (c : TS.Cache) : with_entries c (entries c) = c.
Proof.
  unfold with_entries, entries. by rewrite with_persisted_id, with_cache_id.
Qed.

Lemma entries_js_with_entries (c : JS.Cache) (m : gmap string slot) :
  entries_js (with_entries_js c m) = m.
Proof. reflexivity. Qed.

Lemma with_entries_js_twice (c : JS.Cache) (m m' : gmap string slot) :
  with_entries_js (with_entries_js c m) m' = with_entries_js c m'.
Proof. reflexivity. Qed.

Lemma with_entries_js_id (c : JS.Cache) :
  with_entries_js c (entries_js c) = c.
Proof.
  unfold with_entries_js, entries_js. rewrite with_persisted_id.
  by destruct c.
Qed.

Lemma entries_evicted (k : string) (c : TS.Cache) :
  entries (evicted k c) = delete k (entries c).
Proof. reflexivity. Qed.

Lemma falsy_has_no_property (v : jsval) (name : string) :
  truthy_jsval v = false -> property v name = JUndefined.
Proof. by destruct v. Qed.

Section Expiry.
Context `{Host}.

Lemma truthy_isExpired (now : Z) (e : option Date) :
  truthy (TS.isExpired e false now) = in_the_past now e.
Proof. by destruct e as [[t|]|]. Qed.

Lemma truthy___isExpired (now : Z) (e : option Date) :
  truthy (JS.__isExpired e false now) = in_the_past now e.
Proof. by destruct e as [[t|]|]. Qed.

(** What the guard [data && data.expires] lets through has a timestamp. *)
Lemma falsy_slot_expires (s : slot) :
  slot_truthy s = false -> slot_expires s = None.
Proof.
  destruct s as [e|v]; [done|]. simpl. intros Hv.
  by rewrite (falsy_has_no_property v "expires" Hv).
Qed.

(** What [invalidateKey] leaves behind: the cache without the key when its
    entry has expired, the cache as it was otherwise. *)
Lemma invalidateKey_cache (now : Z) (k : string) (c : TS.Cache) :
  (TS.invalidateKey now k c).2 =
  match entries c !! k with
  | Some s => if in_the_past now (slot_expires s) then evicted k c else c
  | None => c
  end.
Proof.
  unfold TS.invalidateKey, flatCache.getKey. fold (entries c).
  destruct (entries c !! k) as [s|] eqn:Hk; [|done].
  destruct (slot_truthy s) eqn:Hs.
  - destruct (slot_expires s) as [exp|] eqn:He; [|done].
    rewrite truthy_isExpired.
    by destruct (in_the_past now (Some exp)).
  - by rewrite (falsy_slot_expires s Hs).
Qed.

(** [get] in one equation. *)
Lemma get_unfold (now : Z) (k : string) (c : TS.Cache) :
  TS.get now k c =
  match entries c !! k with
  | Some s =>
      if in_the_past now (slot_expires s) then (JNull, evicted k c)
      else (if slot_truthy s then slot_value s else JNull, c)
  | None => (JNull, c)
  end.
Proof.
  unfold TS.get. rewrite invalidateKey_cache.
  unfold flatCache.getKey.
  destruct (entries c !! k) as [s|] eqn:Hk.
  - destruct (in_the_past now (slot_expires s)).
    + fold (entries (evicted k c)). rewrite entries_evicted.
      by rewrite lookup_delete_eq.
    + fold (entries c). by rewrite Hk.
  - fold (entries c). by rewrite Hk.
Qed.

End Expiry.

(** ** Time arithmetic *)





(** ** The entry written by [set] *)

Lemma entries_set (now : Z) (k : string) (v : jsval) (t : ttl_input)
    (c : TS.Cache) :
  entries (TS.set now k v t c) =
  <[k :=
     Wrapped
       {| expires :=
            if truthy_number (TS.effectiveTTL t c)
            then Some (dayjs.add_seconds now (TS.effectiveTTL t c))
            else None;
          value := v |}]> (entries c).
Proof. reflexivity. Qed.

Lemma effectiveTTL_undefined (c : TS.Cache) :
  TS.effectiveTTL TUndefined c = to_num (TS.defaultTTL c).
Proof. reflexivity. Qed.

Lemma truthy_to_num (t : ttl_input) : truthy_number (to_num t) = usable t.
Proof. by destruct t as [| |[| | |q]]. Qed.

Lemma to_num_usable (t : ttl_input) : usable t = true -> to_num t = Number t.
Proof. by destruct t as [| |[| | |q]]. Qed.

(** ** The loop of [all()] *)

(** Settles an equation between lookups in maps built from [insert],
    [delete] and singletons by cases on the keys. *)
Ltac by_lookups :=
  repeat (rewrite ?lookup_insert, ?lookup_singleton, ?lookup_delete,
            ?lookup_empty;
          try case_decide);
  simplify_eq; try done.

Lemma keys_NoDup (data : gmap string slot) : NoDup (keys data).
Proof. apply NoDup_fst_map_to_list. Qed.

Lemma elem_of_keys (data : gmap string slot) (k : string) :
  k ∈ keys data <-> is_Some (data !! k).
Proof.
  unfold keys. rewrite list_elem_of_fmap. split.
  - intros [[k' v] [-> Hin]]. apply elem_of_map_to_list in Hin. by exists v.
  - intros [v Hv]. exists (k, v). split; [done|].
    by apply elem_of_map_to_list.
Qed.

(** A loop whose turn keeps a property of the state keeps it. *)
Lemma foldl_preserves {St : Type} (P : St -> Prop)
    (step : St -> string -> St) :
  (forall st x, P st -> P (step st x)) ->
  forall l st, P st -> P (foldl step st l).
Proof.
  intros Hstep l. induction l as [|x l IH]; intros st Hst; [done|].
  simpl. by apply IH, Hstep.
Qed.

(** A loop over a cache that does to the stored mapping what [sweep_step]
    does, and touches nothing else, is [sweep_step]'s loop on the
    mapping. *)
Section LoopOnTheMapping.
Context `{Host} {St : Type}.
Variables (ents : St -> gmap string slot)
          (put : St -> gmap string slot -> St)
          (step : bool * St -> string -> bool * St)
          (now : Z).
Hypothesis ents_put : forall c m, ents (put c m) = m.
Hypothesis put_put : forall c m m', put (put c m) m' = put c m'.
Hypothesis put_id : forall c, put c (ents c) = c.
Hypothesis step_sweeps : forall b c x,
  step (b, c) x
  = ((sweep_step now (b, ents c) x).1,
     put c (sweep_step now (b, ents c) x).2).

Lemma loop_on_the_mapping (l : list string) (b : bool) (c : St) :
  foldl step (b, c) l
  = ((foldl (sweep_step now) (b, ents c) l).1,
     put c (foldl (sweep_step now) (b, ents c) l).2).
Proof.
  revert b c. induction l as [|x l IH]; intros b c.
  - simpl. by rewrite put_id.
  - change (foldl step (b, c) (x :: l))
      with (foldl step (step (b, c) x) l).
    change (foldl (sweep_step now) (b, ents c) (x :: l))
      with (foldl (sweep_step now) (sweep_step now (b, ents c) x) l).
    rewrite step_sweeps, IH, ents_put, put_put.
    by destruct (sweep_step now (b, ents c) x).
Qed.

End LoopOnTheMapping.

Section Sweep.
Context `{Host}.

Lemma sweep_thrown (now : Z) (l : list string) (m : gmap string slot) :
  foldl (sweep_step now) (true, m) l = (true, m).
Proof. induction l as [|x l IH]; [done|]. by simpl. Qed.

(** With nothing [null] or [undefined] under the keys of the list, the
    loop ends without a TypeError and has done at every key of the list
    what one turn does there. *)
Lemma sweep_clean (now : Z) (l : list string) :
  NoDup l ->
  forall m,
    (forall k, k ∈ l -> exists s, m !! k = Some s /\ nullish s = false) ->
    exists m',
      foldl (sweep_step now) (false, m) l = (false, m')
      /\ forall k,
           m' !! k = if decide (k ∈ l) then m !! k ≫= sweep_slot now
                     else m !! k.
Proof.
  induction l as [|x l IH]; intros Hnd m Hok.
  - exists m. split; [done|]. intros k.
    case_decide as Hin; [|done]. by apply not_elem_of_nil in Hin.
  - apply NoDup_cons in Hnd as [Hx Hnd].
    destruct (Hok x) as (s & Hs & Hn); [apply elem_of_cons; by left|].
    change (foldl (sweep_step now) (false, m) (x :: l))
      with (foldl (sweep_step now) (sweep_step now (false, m) x) l).
    unfold sweep_step at 2. cbn [fst snd]. rewrite Hs, Hn.
    set (m1 := match sweep_slot now s with
               | Some s' => <[x:=s']> m
               | None => delete x m
               end).
    assert (Hm1 : forall k,
              m1 !! k = if decide (k = x) then sweep_slot now s else m !! k).
    { intros k. unfold m1.
      destruct (sweep_slot now s); by_lookups. }
    destruct (IH Hnd m1) as (m' & Hfold & Hm').
    { intros k Hk. rewrite Hm1.
      rewrite decide_False by (intros ->; done).
      apply Hok, elem_of_cons. by right. }
    exists m'. split; [done|]. intros k. rewrite Hm', Hm1.
    destruct (decide (k = x)) as [Heq|Hne].
    + subst k. rewrite (decide_False (P := x ∈ l)) by done.
      rewrite (decide_True (P := x ∈ x :: l)) by (apply elem_of_cons; by left).
      by rewrite Hs.
    + destruct (decide (k ∈ l)) as [Hin|Hnin].
      * by rewrite (decide_True (P := k ∈ x :: l))
          by (apply elem_of_cons; by right).
      * rewrite (decide_False (P := k ∈ x :: l)); [done|].
        by intros [?|?]%elem_of_cons.
Qed.

(** With [null] or [undefined] under a key of the list, the loop ends in
    a TypeError. *)
Lemma sweep_throws (now : Z) (l : list string) :
  NoDup l ->
  forall m k s,
    k ∈ l -> m !! k = Some s -> nullish s = true ->
    (foldl (sweep_step now) (false, m) l).1 = true.
Proof.
  induction l as [|x l IH]; intros Hnd m k s Hin Hs Hn.
  - by apply not_elem_of_nil in Hin.
  - apply NoDup_cons in Hnd as [Hx Hnd].
    change (foldl (sweep_step now) (false, m) (x :: l))
      with (foldl (sweep_step now) (sweep_step now (false, m) x) l).
    unfold sweep_step at 2. cbn [fst snd].
    destruct (m !! x) as [sx|] eqn:Hsx; [|by rewrite sweep_thrown].
    destruct (nullish sx) eqn:Hnx; [by rewrite sweep_thrown|].
    apply elem_of_cons in Hin as [->|Hin]; [congruence|].
    apply (IH Hnd _ k s Hin); [|done].
    assert (Hne : k <> x) by (intros ->; done).
    destruct (sweep_slot now sx); by_lookups.
Qed.

(** The loop of [all()] over the keys of the mapping it works on. *)
Lemma sweep_keys (now : Z) (m : gmap string slot) :
  (no_nullish m ->
   foldl (sweep_step now) (false, m) (keys m) = (false, swept now m))
  /\ ((foldl (sweep_step now) (false, m) (keys m)).1 = false ->
      no_nullish m).
Proof.
  split.
  - intros Hok.
    destruct (sweep_clean now (keys m) (keys_NoDup m) m) as (m' & -> & Hm').
    { intros k [s Hs]%elem_of_keys. exists s. split; [done|]. by eapply Hok. }
    f_equal. apply map_eq. intros k. rewrite Hm'.
    unfold swept. rewrite lookup_omap.
    case_decide as Hin; [done|].
    destruct (m !! k) as [s|] eqn:Hs; [|done].
    exfalso. apply Hin, elem_of_keys. by eexists.
  - intros Hflag k s Hs.
    destruct (nullish s) eqn:Hn; [|done].
    rewrite (sweep_throws now (keys m) (keys_NoDup m) m k s) in Hflag;
      [done| |done|done].
    apply elem_of_keys. by eexists.
Qed.

Lemma all_step_ts_sweeps (now : Z) (b : bool) (c : TS.Cache) (x : string) :
  TS.all_step now (b, c) x
  = ((sweep_step now (b, entries c) x).1,
     with_entries c (sweep_step now (b, entries c) x).2).
Proof.
  unfold TS.all_step, sweep_step, sweep_slot, flatCache.all. cbn [fst snd].
  fold (entries c).
  destruct b; [by rewrite with_entries_id|].
  destruct (entries c !! x) as [s|]; [|by rewrite with_entries_id].
  destruct (nullish s); [by rewrite with_entries_id|].
  rewrite truthy_isExpired.
  destruct (in_the_past now (slot_expires s)); [|done].
  cbn [fst snd]. f_equal. unfold with_entries, flatCache.removeKey.
  cbn [snd flatCache.persisted flatCache.with_persisted flatCache.docId
       flatCache.cacheDir].
  by rewrite delete_delete_eq.
Qed.

Lemma all_step_js_sweeps (now : Z) (b : bool) (c : JS.Cache) (x : string) :
  JS.all_step now (b, c) x
  = ((sweep_step now (b, entries_js c) x).1,
     with_entries_js c (sweep_step now (b, entries_js c) x).2).
Proof.
  unfold JS.all_step, sweep_step, sweep_slot, flatCache.all. cbn [fst snd].
  fold (entries_js c).
  destruct b; [by rewrite with_entries_js_id|].
  destruct (entries_js c !! x) as [s|]; [|by rewrite with_entries_js_id].
  destruct (nullish s); [by rewrite with_entries_js_id|].
  rewrite truthy___isExpired.
  destruct (in_the_past now (slot_expires s)); [|done].
  cbn [fst snd]. f_equal. unfold with_entries_js, flatCache.removeKey.
  cbn [snd flatCache.persisted flatCache.with_persisted flatCache.docId
       flatCache.cacheDir JS.cache JS.with_cache].
  by rewrite delete_insert_eq.
Qed.

(** [all()] of index.ts as the loop on the store's mapping. *)
Lemma all_ts_as_sweep (now : Z) (c : TS.Cache) :
  TS.all now c
  = let r := foldl (sweep_step now) (false, entries c) (keys (entries c)) in
    (if r.1 then TypeError else Returned r.2, with_entries c r.2).
Proof.
  unfold TS.all, flatCache.all. fold (entries c).
  rewrite (loop_on_the_mapping entries with_entries (TS.all_step now) now
             entries_with_entries with_entries_twice with_entries_id
             (all_step_ts_sweeps now)).
  cbn [fst snd]. fold (entries (with_entries c
    (foldl (sweep_step now) (false, entries c) (keys (entries c))).2)).
  by rewrite entries_with_entries.
Qed.

Lemma all_js_as_sweep (now : Z) (c : JS.Cache) :
  JS.all now c
  = let r := foldl (sweep_step now) (false, entries_js c)
               (keys (entries_js c)) in
    (if r.1 then TypeError else Returned r.2, with_entries_js c r.2).
Proof.
  unfold JS.all, flatCache.all. fold (entries_js c).
  rewrite (loop_on_the_mapping entries_js with_entries_js (JS.all_step now)
             now entries_js_with_entries with_entries_js_twice
             with_entries_js_id (all_step_js_sweeps now)).
  cbn [fst snd]. fold (entries_js (with_entries_js c
    (foldl (sweep_step now) (false, entries_js c)
       (keys (entries_js c))).2)).
  by rewrite entries_js_with_entries.
Qed.

(** [all()] of index.ts when nothing stored is [null] or [undefined]: the
    store's mapping is swept, and returned. *)
Lemma all_ts_clean (now : Z) (c : TS.Cache) :
  no_nullish (entries c) ->
  TS.all now c
  = (Returned (swept now (entries c)),
     with_entries c (swept now (entries c))).
Proof.
  intros Hok. rewrite all_ts_as_sweep.
  by rewrite (proj1 (sweep_keys now (entries c)) Hok).
Qed.

(** [all()] of index.ts returns only when nothing stored is [null] or
    [undefined]. *)
Lemma all_ts_returned (now : Z) (c : TS.Cache) (m : gmap string slot) :
  (TS.all now c).1 = Returned m ->
  no_nullish (entries c) /\ m = swept now (entries c).
Proof.
  intros Hret.
  assert (Hok : no_nullish (entries c)).
  { apply (proj2 (sweep_keys now (entries c))).
    rewrite all_ts_as_sweep in Hret. cbn [fst] in Hret.
    by destruct (foldl _ _ _).1. }
  split; [done|]. rewrite (all_ts_clean now c Hok) in Hret.
  by injection Hret.
Qed.

Lemma all_ts_with_entries (now : Z) (c : TS.Cache) :
  (TS.all now c).2 = with_entries c (entries (TS.all now c).2).
Proof. by rewrite all_ts_as_sweep. Qed.

Lemma swept_lookup (now : Z) (m : gmap string slot) (k : string) :
  swept now m !! k = m !! k ≫= sweep_slot now.
Proof. apply lookup_omap. Qed.

End Sweep.

(** ** Properties of [get] *)

Section Read.
Context `{Host}.



(** C2. [get(k)] on a key whose entry carries an expiry timestamp that lies
    in the past removes the key from the store and returns [null]; on a key
    with no entry it returns [null] and changes nothing. *)
Theorem get_expired_or_missing (now : Z) (k : string) (c : TS.Cache) :
  (forall e t,
     entries c !! k = Some (Wrapped e) -> expires e = Some (ValidDate t) ->
     (t < now)%Z ->
     (TS.get now k c).1 = JNull
     /\ entries (TS.get now k c).2 !! k = None
     /\ entries (TS.get now k c).2 = delete k (entries c))
  /\ (entries c !! k = None -> TS.get now k c = (JNull, c)).
Proof.
  split.
  - intros e t Hk He Hlt. rewrite get_unfold, Hk.
    cbn [slot_expires]. rewrite He. simpl.
    apply Z.ltb_lt in Hlt. rewrite Hlt. simpl.
    rewrite entries_evicted, lookup_delete_eq. done.
  - intros Hk. by rewrite get_unfold, Hk.
Qed.

(** C9. The expiry boundary is strict, in both implementations: a timestamp
    counts as expired exactly when it is strictly earlier than the clock
    reading. At [now = expires] the entry is live: [get] returns its value
    and the cache is unchanged. *)
Theorem expiry_boundary_strict (now t : Z) (k : string) (c : TS.Cache)
    (e : CacheEntry) :
  (truthy (TS.isExpired (Some (ValidDate t)) false now) = true
   <-> (t < now)%Z)
  /\ (truthy (JS.__isExpired (Some (ValidDate t)) false now) = true
      <-> (t < now)%Z)
  /\ (entries c !! k = Some (Wrapped e) -> expires e = Some (ValidDate now) ->
      TS.get now k c = (value e, c)).
Proof.
  split; [|split].
  - simpl. apply Z.ltb_lt.
  - simpl. apply Z.ltb_lt.
  - intros Hk He. rewrite get_unfold, Hk.
    cbn [slot_expires slot_truthy slot_value]. rewrite He. simpl.
    by rewrite Z.ltb_irrefl.
Qed.

End Read.

(** ** The TTL chosen by [set] *)

(** C3, as amended. The TTL [set(k, v, ttl)] applies is [ttl] whenever [ttl]
    is a number other than NaN and 0, negative numbers and the infinities
    included; otherwise the default TTL if that is a number other than NaN
    and 0; otherwise none. An explicit 0 counts as no TTL given. Whatever
    the TTL input, [set] stores the entry: with the expiry that TTL gives,
    or with no expiry when there is none. *)
Theorem effective_ttl_selection (now : Z) (k : string) (v : jsval)
    (t : ttl_input) (c : TS.Cache) :
  (usable t = true -> TS.effectiveTTL t c = Number t)
  /\ (usable t = false -> usable (TS.defaultTTL c) = true ->
      TS.effectiveTTL t c = Number (TS.defaultTTL c))
  /\ (usable t = false -> usable (TS.defaultTTL c) = false ->
      truthy_number (TS.effectiveTTL t c) = false)
  /\ entries (TS.set now k v t c) !! k
     = Some (Wrapped
               {| expires :=
                    if truthy_number (TS.effectiveTTL t c)
                    then Some (dayjs.add_seconds now (TS.effectiveTTL t c))
                    else None;
                  value := v |}).
Proof.
  split; [|split; [|split]].
  - intros Ht. unfold TS.effectiveTTL, or_else.
    rewrite truthy_to_num, Ht. by apply to_num_usable.
  - intros Ht Hd. unfold TS.effectiveTTL, or_else.
    rewrite truthy_to_num, Ht. by apply to_num_usable.
  - intros Ht Hd. unfold TS.effectiveTTL, or_else.
    by rewrite truthy_to_num, Ht, truthy_to_num.
  - rewrite entries_set. apply lookup_insert_eq.
Qed.

(** ** [ttl] *)

Section Ttl.
Context `{Host}.

Lemma ttl_cache (now : Z) (k : string) (c : TS.Cache) :
  (TS.ttl now k c).2 = (TS.get now k c).2.
Proof.
  unfold TS.ttl, TS.get. simpl.
  by destruct (flatCache.getKey k _).
Qed.

(** What [invalidateKey] returns, for a formatter that never yields the
    empty string. *)
Lemma invalidateKey_result (now : Z) (k : string) (c : TS.Cache) :
  (forall d, humanize d <> "") ->
  (TS.invalidateKey now k c).1 =
  match entries c !! k with
  | Some s =>
      match slot_expires s with
      | Some exp =>
          if in_the_past now (Some exp) then JNull
          else JStr (humanize (dayjs.diff exp now))
      | None => JNull
      end
  | None => JNull
  end.
Proof.
  intros Hh. unfold TS.invalidateKey, flatCache.getKey. fold (entries c).
  destruct (entries c !! k) as [s|]; [|done].
  destruct (slot_truthy s) eqn:Hs;
    [|by rewrite (falsy_slot_expires s Hs)].
  destruct (slot_expires s) as [exp|]; [|done].
  rewrite truthy_isExpired.
  destruct (in_the_past now (Some exp)); [done|].
  cbn [TS.isExpired truthy to_jsval fst].
  by rewrite (proj2 (String.eqb_neq _ _) (Hh _)).
Qed.

(** C5, as amended. [ttl(k)] returns [{ key: k, expires }] and leaves the
    cache as [get(k)] would. Provided the formatter never yields the empty
    string, [expires] is [null] exactly when [k] has no entry, or its entry
    has no expiry timestamp, or the timestamp lies in the past (the key is
    then evicted); otherwise [expires] is the formatter's text for the time
    from now to the expiry, and the cache is unchanged. *)
Theorem ttl_spec (now : Z) (k : string) (c : TS.Cache) :
  (forall d, humanize d <> "") ->
  TtlInfo.key (TS.ttl now k c).1 = k
  /\ (TS.ttl now k c).2 = (TS.get now k c).2
  /\ (TtlInfo.expires (TS.ttl now k c).1 = JNull
      <-> entries c !! k = None
          \/ exists s, entries c !! k = Some s
                       /\ (slot_expires s = None
                           \/ in_the_past now (slot_expires s) = true))
  /\ (forall s, entries c !! k = Some s ->
        in_the_past now (slot_expires s) = true ->
        entries (TS.ttl now k c).2 = delete k (entries c))
  /\ (forall s exp, entries c !! k = Some s -> slot_expires s = Some exp ->
        in_the_past now (Some exp) = false ->
        TS.ttl now k c
        = ({| TtlInfo.key := k;
              TtlInfo.expires := JStr (humanize (dayjs.diff exp now)) |}, c)).
Proof.
  intros Hh.
  split; [done|]. split; [apply ttl_cache|].
  unfold TS.ttl. cbn [fst snd TtlInfo.expires].
  rewrite invalidateKey_cache, (invalidateKey_result _ _ _ Hh).
  destruct (entries c !! k) as [s|] eqn:Hk.
  - destruct (slot_expires s) as [exp|] eqn:He.
    + destruct (in_the_past now (Some exp)) eqn:Hpast.
      * split; [|split].
        -- split; [|done]. intros _. right. exists s.
           split; [done|]. right. by rewrite He.
        -- intros s' [= <-] _. apply entries_evicted.
        -- intros s' exp' [= <-]. rewrite He. intros [= <-]. congruence.
      * split; [|split].
        -- split; [done|].
           intros [Hnone|(s' & [= <-] & [Hnone|Hp])]; congruence.
        -- intros s' [= <-]. rewrite He. congruence.
        -- intros s' exp' [= <-]. rewrite He. by intros [= <-].
    + split; [|split].
      * split; [|done]. intros _. right. exists s.
        split; [done|]. by left.
      * intros s' [= <-]. rewrite He. done.
      * intros s' exp' [= <-]. by rewrite He.
  - split; [|split]; [|done..]. split; [|done]. intros _. by left.
Qed.

End Ttl.

(** ** [del] *)

(** C6. [del(key)] of index.ts removes the key whether or not it has
    expired, and hands [undefined] to the caller, also when a key was
    removed; its documentation promises [true] in that case. *)
Theorem del_ts_returns_undefined (k : string) (c : TS.Cache) :
  (TS.del k c).1 = JUndefined
  /\ (TS.del k c).2 = evicted k c
  /\ entries (TS.del k c).2 !! k = None.
Proof.
  repeat split. unfold TS.del. simpl.
  apply (lookup_delete_eq (flatCache.persisted (TS.cache c))).
Qed.

(** ** The constructor *)

Section Constructor.
Context `{Host}.

(** The constructor of index.ts takes a non-empty directory whose parent
    exists as it is given, and the default location in every other case. *)
Lemma constructor_ts_dir (options : TS.CacheOptions) :
  let c := TS.constructor options in
  let fallback :=
    join [tmpdir; "cache"; default "default" (TS.o_ns options)] in
  flatCache.cacheDir (TS.cache c) = TS.dir c
  /\ (forall d, TS.o_dir options = Some d -> d <> "" ->
        existsSync (dirname d) = true -> TS.dir c = d)
  /\ (forall d, TS.o_dir options = Some d ->
        existsSync (dirname d) = false -> TS.dir c = fallback)
  /\ (TS.o_dir options = None -> TS.dir c = fallback).
Proof.
  unfold TS.constructor. simpl. repeat split.
  - intros d -> Hd He. apply String.eqb_neq in Hd. by rewrite Hd, He.
  - intros d -> He. rewrite He. by rewrite andb_false_r.
  - by intros ->.
Qed.

(** C7. The constructor of the JavaScript file opens the store at the
    default location whatever directory the caller supplies: the outcome of
    the test of the supplied directory is overwritten by the next
    assignment. A supplied directory whose parent exists is therefore not
    the store location, unless it happens to be the default path. *)
Theorem constructor_js_discards_dir (options : TS.CacheOptions)
    (d : string) :
  let fallback :=
    join [tmpdir; "cache";
          if String.eqb (default "default" (TS.o_ns options)) ""
          then "default" else default "default" (TS.o_ns options)] in
  TS.o_dir options = Some d -> existsSync (dirname d) = true ->
  d <> fallback ->
  flatCache.cacheDir (JS.cache (JS.constructor options)) = fallback
  /\ flatCache.cacheDir (JS.cache (JS.constructor options)) <> d.
Proof.
  intros fallback Hd Hparent Hne.
  assert (Hloc : flatCache.cacheDir (JS.cache (JS.constructor options))
                 = fallback) by reflexivity.
  split; [exact Hloc|].
  rewrite Hloc. intros Heq. by apply Hne.
Qed.

End Constructor.

(** ** What [get] and [ttl] leave in the store *)

Section Eviction.
Context `{Host}.

Lemma evicts_only_expired_refl (now : Z) (c : TS.Cache) :
  evicts_only_expired now c c.
Proof. split; [by rewrite with_entries_id|]. intros k. by left. Qed.

Lemma evicts_only_expired_evicted (now : Z) (k : string) (s : slot)
    (c : TS.Cache) :
  entries c !! k = Some s -> in_the_past now (slot_expires s) = true ->
  evicts_only_expired now c (evicted k c).
Proof.
  intros Hk He. split; [done|]. intros k'. rewrite entries_evicted.
  destruct (decide (k' = k)) as [->|Hne].
  - right. rewrite lookup_delete_eq. split; [done|]. by exists s.
  - left. by apply lookup_delete_ne.
Qed.

Lemma evicts_keeps_live (now : Z) (before after : TS.Cache) :
  evicts_only_expired now before after -> keeps_live_entries now before after.
Proof.
  intros [_ Hev] k s Hk He.
  destruct (Hev k) as [->|[_ (s' & Hs' & Hp)]]; [done|]. congruence.
Qed.

Lemma get_evicts_only_expired (now : Z) (k : string) (c : TS.Cache) :
  evicts_only_expired now c (TS.get now k c).2.
Proof.
  rewrite get_unfold.
  destruct (entries c !! k) as [s|] eqn:Hk;
    [|apply evicts_only_expired_refl].
  destruct (in_the_past now (slot_expires s)) eqn:He;
    [|apply evicts_only_expired_refl].
  by apply (evicts_only_expired_evicted now k s).
Qed.

End Eviction.

(** ** What [all()] does to the store *)

Section AllProperties.
Context `{Host}.

(** A live envelope becomes its plain value, in the store and in the
    object returned. *)
Lemma all_unwraps_live (now : Z) (k : string) (e : CacheEntry)
    (c : TS.Cache) (m : gmap string slot) :
  entries c !! k = Some (Wrapped e) ->
  in_the_past now (expires e) = false ->
  (TS.all now c).1 = Returned m ->
  m !! k = Some (Unwrapped (value e))
  /\ entries (TS.all now c).2 = m.
Proof.
  intros Hk He Hret.
  destruct (all_ts_returned now c m Hret) as [Hok ->].
  rewrite (all_ts_clean now c Hok). cbn [snd].
  rewrite entries_with_entries. split; [|done].
  rewrite swept_lookup, Hk. cbn [mbind option_bind].
  unfold sweep_slot. cbn [slot_expires slot_value]. by rewrite He.
Qed.

(** A plain value with no [expires] property is never evicted: [all()]
    puts its [value] property in its place. *)
Lemma all_keeps_plain (now : Z) (k : string) (v : jsval) (c : TS.Cache)
    (m : gmap string slot) :
  entries c !! k = Some (Unwrapped v) ->
  property v "expires" = JUndefined ->
  (TS.all now c).1 = Returned m ->
  m !! k = Some (Unwrapped (property v "value"))
  /\ entries (TS.all now c).2 = m.
Proof.
  intros Hk He Hret.
  destruct (all_ts_returned now c m Hret) as [Hok ->].
  rewrite (all_ts_clean now c Hok). cbn [snd].
  rewrite entries_with_entries. split; [|done].
  rewrite swept_lookup, Hk. cbn [mbind option_bind].
  unfold sweep_slot. cbn [slot_expires slot_value]. by rewrite He.
Qed.

(** C4. [all()] works on the store's own object: where it finds a live
    envelope it leaves the plain value, in the store as in the object it
    returns, and the timestamp is gone. For a value with no [expires]
    property of its own, a later [all()] therefore returns the key at every
    clock reading, also after the TTL has run out, bound to the [value]
    property of the plain value: the expired entry is neither evicted nor
    absent from the mapping. *)
Theorem all_forgets_expiry (now now' : Z) (k : string) (e : CacheEntry)
    (c : TS.Cache) (m1 m2 : gmap string slot) :
  entries c !! k = Some (Wrapped e) ->
  in_the_past now (expires e) = false ->
  property (value e) "expires" = JUndefined ->
  (TS.all now c).1 = Returned m1 ->
  (TS.all now' (TS.all now c).2).1 = Returned m2 ->
  m1 !! k = Some (Unwrapped (value e))
  /\ entries (TS.all now c).2 !! k = Some (Unwrapped (value e))
  /\ m2 !! k = Some (Unwrapped (property (value e) "value"))
  /\ entries (TS.all now' (TS.all now c).2).2 !! k
     = Some (Unwrapped (property (value e) "value")).
Proof.
  intros Hk He Hprop Hret1 Hret2.
  destruct (all_unwraps_live now k e c m1 Hk He Hret1) as [Hm1 Hstore1].
  assert (Hk1 : entries (TS.all now c).2 !! k = Some (Unwrapped (value e)))
    by by rewrite Hstore1.
  destruct (all_keeps_plain now' k (value e) (TS.all now c).2 m2
              Hk1 Hprop Hret2) as [Hm2 Hstore2].
  repeat split; try done. by rewrite Hstore2.
Qed.

(** C8. [set] and [del] leave the entry of every other key as it was. On a
    cache with an empty store and no usable default TTL, after
    [set("p", "1")] and [set("q", "2")], [all()] returns
    [{ p: "1", q: "2" }]; it has by then put the plain strings in the
    store, so after [del("p")] the second [all()] returns
    [{ q: undefined }], the [value] property of the string ["2"], and not
    [{ q: "2" }]. *)
Theorem set_del_frame_and_scenario :
  (forall now k k' v t (c : TS.Cache), k <> k' ->
     entries (TS.set now k v t c) !! k' = entries c !! k')
  /\ (forall k k' (c : TS.Cache), k <> k' ->
        entries (TS.del k c).2 !! k' = entries c !! k')
  /\ (forall (c : TS.Cache) (t1 t2 t3 t4 : Z),
        entries c = ∅ -> usable (TS.defaultTTL c) = false ->
        let c2 :=
          TS.set t2 "q" (JStr "2") TUndefined
            (TS.set t1 "p" (JStr "1") TUndefined c) in
        (TS.all t3 c2).1
        = Returned
            {[ "p" := Unwrapped (JStr "1"); "q" := Unwrapped (JStr "2") ]}
        /\ (TS.all t4 (TS.del "p" (TS.all t3 c2).2).2).1
           = Returned {[ "q" := Unwrapped JUndefined ]}).
Proof.
  split; [|split].
  - intros now k k' v t c Hne. rewrite entries_set. by apply lookup_insert_ne.
  - intros k k' c Hne.
    apply (lookup_delete_ne (flatCache.persisted (TS.cache c))). done.
  - intros c t1 t2 t3 t4 Hempty Hd c2.
    assert (Hc2 : entries c2
                  = {[ "p" := Wrapped {| expires := None; value := JStr "1" |};
                       "q" := Wrapped {| expires := None;
                                         value := JStr "2" |} ]}).
    { unfold c2. rewrite !entries_set, !effectiveTTL_undefined.
      cbn [TS.defaultTTL TS.set TS.with_cache].
      rewrite truthy_to_num, Hd, Hempty.
      apply map_eq. intros k. by_lookups. }
    assert (Hok2 : no_nullish (entries c2)).
    { intros k s. rewrite Hc2. by_lookups; by intros [= <-]. }
    assert (Hswept : swept t3 (entries c2)
                     = {[ "p" := Unwrapped (JStr "1");
                          "q" := Unwrapped (JStr "2") ]}).
    { apply map_eq. intros k. rewrite swept_lookup, Hc2. by_lookups. }
    rewrite (all_ts_clean t3 c2 Hok2), Hswept. cbn [fst snd].
    split; [done|].
    set (c3 := (TS.del "p" _).2).
    assert (Hc3 : entries c3 = {[ "q" := Unwrapped (JStr "2") ]}).
    { unfold c3, TS.del. cbn [snd].
      change (delete "p" ({[ "p" := Unwrapped (JStr "1");
                              "q" := Unwrapped (JStr "2") ]}
                          : gmap string slot)
              = {[ "q" := Unwrapped (JStr "2") ]}).
      apply map_eq. intros k. by_lookups. }
    assert (Hok3 : no_nullish (entries c3)).
    { intros k s. rewrite Hc3. by_lookups; by intros [= <-]. }
    assert (Hswept3 : swept t4 (entries c3)
                      = {[ "q" := Unwrapped JUndefined ]}).
    { apply map_eq. intros k. rewrite swept_lookup, Hc3. by_lookups. }
    by rewrite (all_ts_clean t4 c3 Hok3), Hswept3.
Qed.

(** C10. [get] and [ttl] never remove or change the stored entry of a key
    that has not expired when they are called or that has no expiry
    timestamp: whatever they change in the cache is the removal of an entry
    that had expired. [all()] does change such entries: where it returns,
    every live envelope in the store has been replaced by its plain
    value. *)
Theorem reads_and_live_entries (now : Z) (k : string) (c : TS.Cache) :
  (keeps_live_entries now c (TS.get now k c).2
   /\ evicts_only_expired now c (TS.get now k c).2)
  /\ (keeps_live_entries now c (TS.ttl now k c).2
      /\ evicts_only_expired now c (TS.ttl now k c).2)
  /\ (forall k' e m,
        entries c !! k' = Some (Wrapped e) ->
        in_the_past now (expires e) = false ->
        (TS.all now c).1 = Returned m ->
        entries (TS.all now c).2 !! k' = Some (Unwrapped (value e))
        /\ ~ keeps_live_entries now c (TS.all now c).2).
Proof.
  rewrite ttl_cache.
  pose proof (get_evicts_only_expired now k c) as Hget.
  split; [|split]; [split; [by apply evicts_keeps_live|done]..|].
  intros k' e m Hk He Hret.
  destruct (all_unwraps_live now k' e c m Hk He Hret) as [Hm Hstore].
  assert (Hafter : entries (TS.all now c).2 !! k'
                   = Some (Unwrapped (value e))) by by rewrite Hstore.
  split; [done|]. intros Hkeep.
  specialize (Hkeep k' (Wrapped e) Hk He). congruence.
Qed.

End AllProperties.

(** ** The properties at concrete inputs *)

Lemma sample_humanize_nonempty :
  forall d, @humanize sample_host d <> "".
Proof.
  intros [| | |q]; simpl; try discriminate.
  destruct (Qle_bool 0 q); discriminate.
Qed.



(** C2 on the expiring key read at clock reading 3000, and on a key that was
    never set. *)
Lemma get_expired_or_missing_witness :
  ((@TS.get sample_host 3000 "key" stale).1 = JNull
   /\ entries (@TS.get sample_host 3000 "key" stale).2 !! "key" = None
   /\ entries (@TS.get sample_host 3000 "key" stale).2
      = delete "key" (entries stale))
  /\ @TS.get sample_host 3000 "nonexistent" fresh = (JNull, fresh).
Proof.
  split.
  - apply (proj1 (@get_expired_or_missing sample_host 3000 "key" stale)
             {| expires := Some (ValidDate 2000); value := JStr "value" |}
             2000%Z).
    + vm_compute. reflexivity.
    + reflexivity.
    + lia.
  - apply (proj2
             (@get_expired_or_missing sample_host 3000 "nonexistent" fresh)).
    vm_compute. reflexivity.
Defined.

(** C9 on the expiring key read at the very instant it expires. *)
Lemma expiry_boundary_strict_witness :
  @TS.get sample_host 2000 "key" stale = (JStr "value", stale).
Proof.
  apply (proj2 (proj2
           (@expiry_boundary_strict sample_host 2000 2000 "key" stale
              {| expires := Some (ValidDate 2000); value := JStr "value" |}))).
  - vm_compute. reflexivity.
  - reflexivity.
Defined.

(** C3, the claim as stated fails: with a default TTL of 60 seconds,
    [set(k, v, 0)] gives the entry the default's 60 seconds, not the valid
    non-negative 0 that was passed. *)
Lemma zero_ttl_takes_default :
  valid_non_negative (TNum (Fin 0)) = true
  /\ TS.effectiveTTL (TNum (Fin 0)) fresh60 = Fin 60
  /\ TS.effectiveTTL (TNum (Fin 0)) fresh60 <> Number (TNum (Fin 0))
  /\ entries (TS.set 1000 "k" (JStr "v") (TNum (Fin 0)) fresh60) !! "k"
     = Some (Wrapped
               {| expires := Some (ValidDate 61000); value := JStr "v" |}).
Proof.
  split; [reflexivity|]. split; [reflexivity|]. split; [discriminate|].
  vm_compute. reflexivity.
Qed.

(** A negative TTL is taken as it is: the entry is born expired. *)
Example negative_ttl_is_kept :
  TS.effectiveTTL (TNum (Fin (-5))) fresh60 = Fin (-5)
  /\ entries (TS.set 10000 "k" (JStr "v") (TNum (Fin (-5))) fresh60) !! "k"
     = Some (Wrapped
               {| expires := Some (ValidDate 5000); value := JStr "v" |}).
Proof. split; [reflexivity|]. vm_compute. reflexivity. Qed.

(** C3 as amended, on an explicit TTL, on the default, and on neither. *)
Lemma effective_ttl_selection_witness :
  TS.effectiveTTL (TNum (Fin 10)) fresh60 = Fin 10
  /\ TS.effectiveTTL TUndefined fresh60 = Fin 60
  /\ truthy_number (TS.effectiveTTL (TNum NaN) fresh) = false.
Proof.
  split; [|split].
  - apply (proj1 (effective_ttl_selection 0 "k" JNull (TNum (Fin 10))
                    fresh60)).
    reflexivity.
  - apply (proj1 (proj2 (effective_ttl_selection 0 "k" JNull TUndefined
                           fresh60))); reflexivity.
  - apply (proj1 (proj2 (proj2
             (effective_ttl_selection 0 "k" JNull (TNum NaN) fresh))));
      reflexivity.
Defined.

(** C5, the claim as stated fails: the key ["a"] exists and has not
    expired, [get] returns its value, and [ttl] reports [expires: null]. *)
Lemma ttl_null_on_live_key :
  entries plain !! "a"
  = Some (Wrapped {| expires := None; value := JNum (Fin 1) |})
  /\ @TS.get sample_host 5000 "a" plain = (JNum (Fin 1), plain)
  /\ @TS.ttl sample_host 5000 "a" plain
     = ({| TtlInfo.key := "a"; TtlInfo.expires := JNull |}, plain).
Proof. vm_compute. repeat split. Qed.

(** C5 as amended, on the expiring key before and after its expiry. *)
Lemma ttl_spec_witness :
  @TS.ttl sample_host 1500 "key" stale
  = ({| TtlInfo.key := "key"; TtlInfo.expires := JStr "in a few seconds" |},
     stale)
  /\ entries (@TS.ttl sample_host 3000 "key" stale).2
     = delete "key" (entries stale).
Proof.
  pose proof (@ttl_spec sample_host) as Hspec.
  split.
  - apply (proj2 (proj2 (proj2 (proj2
             (Hspec 1500%Z "key" stale sample_humanize_nonempty))))
             (Wrapped
                {| expires := Some (ValidDate 2000); value := JStr "value" |})
             (ValidDate 2000)).
    + vm_compute. reflexivity.
    + reflexivity.
    + reflexivity.
  - apply (proj1 (proj2 (proj2 (proj2
             (Hspec 3000%Z "key" stale sample_humanize_nonempty))))
             (Wrapped
                {| expires := Some (ValidDate 2000);
                   value := JStr "value" |})).
    + vm_compute. reflexivity.
    + reflexivity.
Defined.

(** C4 at its failing input: [set("key", "value", 1)] at clock reading
    1000, [all()] at 1500, [all()] again at 5000. The second call returns
    [{ key: undefined }] three seconds after the entry's TTL ran out. *)
Lemma all_forgets_expiry_witness :
  (@TS.all sample_host 1500 stale).1
  = Returned {[ "key" := Unwrapped (JStr "value") ]}
  /\ (@TS.all sample_host 5000 (@TS.all sample_host 1500 stale).2).1
     = Returned {[ "key" := Unwrapped JUndefined ]}
  /\ entries (@TS.all sample_host 5000 (@TS.all sample_host 1500 stale).2).2
       !! "key"
     = Some (Unwrapped JUndefined).
Proof.
  assert (H1 : (@TS.all sample_host 1500 stale).1
               = Returned {[ "key" := Unwrapped (JStr "value") ]})
    by (vm_compute; reflexivity).
  assert (H2 : (@TS.all sample_host 5000
                  (@TS.all sample_host 1500 stale).2).1
               = Returned {[ "key" := Unwrapped JUndefined ]})
    by (vm_compute; reflexivity).
  split; [exact H1|]. split; [exact H2|].
  apply (proj2 (proj2 (proj2
           (@all_forgets_expiry sample_host 1500 5000 "key"
              {| expires := Some (ValidDate 2000); value := JStr "value" |}
              stale _ _ ltac:(vm_compute; reflexivity) eq_refl eq_refl
              H1 H2)))).
Defined.

(** The same calls on the JavaScript file. *)
Example all_js_forgets_expiry :
  (@JS.all sample_host 5000 (@JS.all sample_host 1500 stale_js).2).1
  = Returned {[ "key" := Unwrapped JUndefined ]}.
Proof. vm_compute. reflexivity. Qed.

(** On a first call after the TTL ran out, [all()] of both files evicts the
    key and returns the empty object. *)
Example all_drops_expired_key :
  @TS.all sample_host 5000 stale = (Returned ∅, evicted "key" stale)
  /\ (@JS.all sample_host 5000 stale_js).1 = Returned ∅.
Proof. vm_compute. split; reflexivity. Qed.

(** C6 at its failing input: [del("p")] after [set("p", "1")] answers
    [undefined], in index.ts and in the JavaScript file. *)
Example del_present_key :
  (TS.del "p" (TS.set 1000 "p" (JStr "1") TUndefined fresh)).1 = JUndefined
  /\ (JS.del "p" (JS.set 1000 "p" (JStr "1") TUndefined fresh_js)).1
     = JUndefined.
Proof. vm_compute. repeat split. Qed.

(** C7 at its failing input: [{ dir: "/var/data" }] where [/var] exists. *)
Lemma constructor_js_discards_dir_witness :
  flatCache.cacheDir (JS.cache (@JS.constructor sample_host with_dir))
  = "/tmp/cache/default"
  /\ flatCache.cacheDir (JS.cache (@JS.constructor sample_host with_dir))
     <> "/var/data".
Proof.
  apply (@constructor_js_discards_dir sample_host with_dir "/var/data").
  - reflexivity.
  - reflexivity.
  - vm_compute. discriminate.
Defined.

(** The same input: index.ts opens the store there, the JavaScript file
    under the temporary directory. *)
Example constructor_with_dir :
  flatCache.cacheDir (TS.cache (@TS.constructor sample_host with_dir))
  = "/var/data"
  /\ flatCache.cacheDir (JS.cache (@JS.constructor sample_host with_dir))
     = "/tmp/cache/default".
Proof. vm_compute. split; reflexivity. Qed.

(** C8 at its failing input, a fresh cache. *)
Lemma set_del_frame_and_scenario_witness :
  let c2 :=
    TS.set 2 "q" (JStr "2") TUndefined
      (TS.set 1 "p" (JStr "1") TUndefined fresh) in
  (@TS.all sample_host 3 c2).1
  = Returned {[ "p" := Unwrapped (JStr "1"); "q" := Unwrapped (JStr "2") ]}
  /\ (@TS.all sample_host 4
        (TS.del "p" (@TS.all sample_host 3 c2).2).2).1
     = Returned {[ "q" := Unwrapped JUndefined ]}.
Proof.
  apply (proj2 (proj2 (@set_del_frame_and_scenario sample_host))
           fresh 1%Z 2%Z 3%Z 4%Z); reflexivity.
Defined.

(** C10 at its failing input: a cache holding the expiring key and a key
    with no expiry, read after the former expired. [get] and [ttl] leave
    the live entry alone; [all()] replaces it by the number it held. *)
Lemma reads_and_live_entries_witness :
  let kept := Some (Wrapped {| expires := None; value := JNum (Fin 1) |}) in
  entries (@TS.get sample_host 5000 "key" mixed).2 !! "a" = kept
  /\ entries (@TS.ttl sample_host 5000 "key" mixed).2 !! "a" = kept
  /\ entries (@TS.all sample_host 5000 mixed).2 !! "a"
     = Some (Unwrapped (JNum (Fin 1))).
Proof.
  intros kept.
  destruct (@reads_and_live_entries sample_host 5000 "key" mixed)
    as ([Hget _] & [Httl _] & Hall).
  split; [|split].
  - apply Hget; [vm_compute|]; reflexivity.
  - apply Httl; [vm_compute|]; reflexivity.
  - apply (proj1 (Hall "a" {| expires := None; value := JNum (Fin 1) |}
                    {[ "a" := Unwrapped (JNum (Fin 1)) ]}
                    ltac:(vm_compute; reflexivity) eq_refl
                    ltac:(vm_compute; reflexivity))).
Defined.

(** After that [all()], [get("a")] returns [undefined], the [value]
    property of the number. *)
Example get_after_all :
  (@TS.get sample_host 5000 "a" (@TS.all sample_host 5000 mixed).2).1
  = JUndefined.
Proof. vm_compute. reflexivity. Qed.

(** ** The test suite's expiry scenarios *)

(** [set("key", "value", 1)], then two seconds later [get("key")] is
    [null]; before that it is ["value"]. *)
Example expired_key_reads_null :
  (@TS.get sample_host 1000 "key" stale).1 = JStr "value"
  /\ (@TS.get sample_host 3000 "key" stale).1 = JNull.
Proof. vm_compute. split; reflexivity. Qed.

(** [ttl("nonexistent").expires] is [null] in index.ts and [undefined] in
    the JavaScript file. *)
Example ttl_of_missing_key :
  TtlInfo.expires (@TS.ttl sample_host 1000 "nonexistent" fresh).1 = JNull
  /\ TtlInfo.expires
       (@JS.ttl sample_host 1000 "nonexistent" fresh_js).1 = JUndefined.
Proof. vm_compute. split; reflexivity. Qed.

(** * Further properties of the code *)

(** ** Expiry after a whole number of seconds *)

Lemma add_seconds_whole (now n : Z) :
  (Z.abs (now + 1000 * n) <= max_time)%Z ->
  dayjs.add_seconds now (Fin (inject_Z n)) = ValidDate (now + 1000 * n).
Proof.
  intros Hr. unfold dayjs.add_seconds, TimeClip, max_time in *.
  assert (Hnum : Qnum (inject_Z now + inject_Z n * 1000)
                 = (now + 1000 * n)%Z) by (simpl; lia).
  assert (Hden : Qden (inject_Z now + inject_Z n * 1000) = 1%positive)
    by reflexivity.
  assert (Hin : Qle_bool (Qabs (inject_Z now + inject_Z n * 1000))
                  8640000000000000 = true).
  { unfold Qle_bool, Qabs.
    destruct (inject_Z now + inject_Z n * 1000)%Q as [num den] eqn:Hq.
    simpl in Hnum, Hden. subst num den. simpl. apply Z.leb_le. lia. }
  rewrite Hin, Hnum, Hden. by rewrite Z.quot_1_r.
Qed.

Lemma usable_seconds (n : Z) : n <> 0%Z -> usable (seconds n) = true.
Proof.
  intros Hn. unfold usable, seconds. simpl.
  apply negb_true_iff, Z.eqb_neq. done.
Qed.

Lemma set_with_entries (now : Z) (k : string) (v : jsval) (t : ttl_input)
    (c : TS.Cache) :
  TS.set now k v t c = with_entries c (entries (TS.set now k v t c)).
Proof. reflexivity. Qed.

(** The entry [set] writes for [n] seconds, [n] not zero. *)
Lemma entries_set_seconds (now n : Z) (k : string) (v : jsval)
    (c : TS.Cache) :
  n <> 0%Z -> (Z.abs (now + 1000 * n) <= max_time)%Z ->
  entries (TS.set now k v (seconds n) c)
  = <[k := Wrapped {| expires := Some (ValidDate (now + 1000 * n));
                      value := v |}]>
      (entries c).
Proof.
  intros Hn Hr. rewrite entries_set.
  assert (Heff : TS.effectiveTTL (seconds n) c = Fin (inject_Z n)).
  { unfold TS.effectiveTTL, or_else. rewrite truthy_to_num, usable_seconds.
    - reflexivity.
    - done. }
  rewrite Heff.
  change (truthy_number (Fin (inject_Z n))) with (usable (seconds n)).
  by rewrite usable_seconds, add_seconds_whole.
Qed.

Section Elapse.
Context `{Host}.

(** X1. After [set(k, v, n)] at clock reading [now], with [n] a whole number
    of seconds other than 0 and [now + 1000 n] a time value a [Date] holds,
    [get(k)] returns [v] and changes nothing at every reading up to and
    including [now + 1000 n]; at every later reading it returns [null] and
    leaves the cache without the key. A negative [n] therefore gives an
    entry that no read from [now] on returns. *)
Theorem ttl_elapses (now now' n : Z) (k : string) (v : jsval)
    (c : TS.Cache) :
  n <> 0%Z -> (Z.abs (now + 1000 * n) <= max_time)%Z ->
  ((now' <= now + 1000 * n)%Z ->
   TS.get now' k (TS.set now k v (seconds n) c)
   = (v, TS.set now k v (seconds n) c))
  /\ ((now + 1000 * n < now')%Z ->
      TS.get now' k (TS.set now k v (seconds n) c) = (JNull, evicted k c)).
Proof.
  intros Hn Hr.
  pose proof (entries_set_seconds now n k v c Hn Hr) as Hset.
  split; intros Hcmp; rewrite get_unfold, Hset, lookup_insert_eq; simpl.
  - apply Z.ltb_ge in Hcmp. by rewrite Hcmp.
  - apply Z.ltb_lt in Hcmp. rewrite Hcmp. f_equal.
    unfold evicted. rewrite Hset, delete_insert_eq.
    by rewrite set_with_entries, with_entries_twice.
Qed.

(** X2. An entry stored with no usable TTL, neither given nor configured,
    never expires: [get(k)] returns [v] and changes nothing at every clock
    reading. *)
Theorem no_ttl_never_expires (now now' : Z) (k : string) (v : jsval)
    (t : ttl_input) (c : TS.Cache) :
  usable t = false -> usable (TS.defaultTTL c) = false ->
  TS.get now' k (TS.set now k v t c) = (v, TS.set now k v t c).
Proof.
  intros Ht Hd. rewrite get_unfold, entries_set, lookup_insert_eq. simpl.
  assert (Heff : truthy_number (TS.effectiveTTL t c) = false).
  { unfold TS.effectiveTTL, or_else.
    by rewrite truthy_to_num, Ht, truthy_to_num. }
  by rewrite Heff.
Qed.

(** X3. A TTL of plus or minus infinity gives an entry whose [expires] is
    the invalid date; no comparison finds it in the past, so [get(k)]
    returns [v] and changes nothing at every clock reading. *)
Theorem infinite_ttl_never_expires (now now' : Z) (k : string) (v : jsval)
    (n : number) (c : TS.Cache) :
  n = PosInf \/ n = NegInf ->
  entries (TS.set now k v (TNum n) c) !! k
  = Some (Wrapped {| expires := Some InvalidDate; value := v |})
  /\ TS.get now' k (TS.set now k v (TNum n) c)
     = (v, TS.set now k v (TNum n) c).
Proof.
  intros Hn.
  assert (Hset : entries (TS.set now k v (TNum n) c) !! k
                 = Some (Wrapped {| expires := Some InvalidDate;
                                    value := v |})).
  { rewrite entries_set, lookup_insert_eq. by destruct Hn as [-> | ->]. }
  split; [done|]. by rewrite get_unfold, Hset.
Qed.

(** X4. While an entry set for [n > 0] seconds is live, [ttl(k)] reports
    the formatter's text for the milliseconds that remain,
    [now + 1000 n - now'], and changes nothing. *)
Theorem ttl_after_set (now now' n : Z) (k : string) (v : jsval)
    (c : TS.Cache) :
  (forall d, humanize d <> "") ->
  (0 < n)%Z -> (Z.abs (now + 1000 * n) <= max_time)%Z ->
  (now' <= now + 1000 * n)%Z ->
  TS.ttl now' k (TS.set now k v (seconds n) c)
  = ({| TtlInfo.key := k;
        TtlInfo.expires :=
          JStr (humanize (Fin (inject_Z (now + 1000 * n - now')))) |},
     TS.set now k v (seconds n) c).
Proof.
  intros Hh Hn Hr Hcmp.
  pose proof (entries_set_seconds now n k v c ltac:(lia) Hr) as Hset.
  unfold TS.ttl.
  rewrite invalidateKey_cache, (invalidateKey_result _ _ _ Hh).
  rewrite Hset, lookup_insert_eq. simpl.
  apply Z.ltb_ge in Hcmp. by rewrite Hcmp.
Qed.

End Elapse.

(** ** Writes *)

Lemma effectiveTTL_with_entries (t : ttl_input) (c : TS.Cache)
    (m : gmap string slot) :
  TS.effectiveTTL t (with_entries c m) = TS.effectiveTTL t c.
Proof. reflexivity. Qed.

Lemma set_as_with_entries (now : Z) (k : string) (v : jsval) (t : ttl_input)
    (c : TS.Cache) :
  TS.set now k v t c
  = with_entries c
      (<[k := Wrapped
                {| expires :=
                     if truthy_number (TS.effectiveTTL t c)
                     then Some (dayjs.add_seconds now (TS.effectiveTTL t c))
                     else None;
                   value := v |}]> (entries c)).
Proof. reflexivity. Qed.

Lemma del_as_with_entries (k : string) (c : TS.Cache) :
  (TS.del k c).2 = with_entries c (delete k (entries c)).
Proof. reflexivity. Qed.


Section Delete.
Context `{Host}.

(** X6. After [del(k)], [get(k)] returns [null] at every clock reading and
    changes nothing; a second [del(k)] changes nothing; [del] of a key with
    no entry leaves the cache as it was; and [del(k)] after [set(k, ...)]
    leaves the cache [del(k)] alone would. *)
Theorem del_then_get (now : Z) (k : string) (v : jsval) (t : ttl_input)
    (c : TS.Cache) :
  TS.get now k (TS.del k c).2 = (JNull, (TS.del k c).2)
  /\ (TS.del k (TS.del k c).2).2 = (TS.del k c).2
  /\ (entries c !! k = None -> (TS.del k c).2 = c)
  /\ (TS.del k (TS.set now k v t c)).2 = (TS.del k c).2.
Proof.
  rewrite !del_as_with_entries. split; [|split; [|split]].
  - by rewrite get_unfold, entries_with_entries, lookup_delete_eq.
  - rewrite with_entries_twice, entries_with_entries.
    by rewrite delete_delete_eq.
  - intros Hk. rewrite delete_id by done. apply with_entries_id.
  - rewrite set_as_with_entries, with_entries_twice, entries_with_entries.
    by rewrite delete_insert_eq.
Qed.

(** X7. After [destroy()] the store is empty: [get] returns [null] for
    every key, [ttl] reports [expires: null], [all()] returns the empty
    object, none of them changing anything; directory, namespace and
    default TTL are kept, and a following [set] starts from the empty
    store. *)
Theorem destroy_empties (now : Z) (k : string) (v : jsval) (t : ttl_input)
    (c : TS.Cache) :
  TS.destroy c = with_entries c ∅
  /\ TS.get now k (TS.destroy c) = (JNull, TS.destroy c)
  /\ TS.ttl now k (TS.destroy c)
     = ({| TtlInfo.key := k; TtlInfo.expires := JNull |}, TS.destroy c)
  /\ TS.all now (TS.destroy c) = (Returned ∅, TS.destroy c)
  /\ entries (TS.set now k v t (TS.destroy c)) !! k
     = entries (TS.set now k v t c) !! k
  /\ dom (entries (TS.set now k v t (TS.destroy c))) = {[ k ]}.
Proof.
  assert (Hd : TS.destroy c = with_entries c ∅) by reflexivity.
  rewrite Hd. split; [done|]. split; [|split; [|split; [|split]]].
  - by rewrite get_unfold, entries_with_entries, lookup_empty.
  - unfold TS.ttl, TS.invalidateKey, flatCache.getKey.
    fold (entries (with_entries c ∅)).
    by rewrite entries_with_entries, lookup_empty.
  - rewrite all_ts_clean.
    + rewrite entries_with_entries, with_entries_twice.
      unfold swept. by rewrite omap_empty.
    + intros k' s. by rewrite entries_with_entries, lookup_empty.
  - by rewrite !entries_set, effectiveTTL_with_entries, !lookup_insert_eq.
  - rewrite entries_set, entries_with_entries, dom_insert_L, dom_empty_L.
    apply union_empty_r_L.
Qed.

(** X8. No method changes the directory, the namespace, the default TTL or
    the binding of the store: the cache a method leaves differs from the
    one it found in the stored mapping only. *)
Theorem methods_keep_configuration (now : Z) (k : string) (v : jsval)
    (t : ttl_input) (c : TS.Cache) :
  same_configuration c (TS.set now k v t c)
  /\ same_configuration c (TS.del k c).2
  /\ same_configuration c (TS.destroy c)
  /\ same_configuration c (TS.get now k c).2
  /\ same_configuration c (TS.ttl now k c).2
  /\ same_configuration c (TS.all now c).2.
Proof.
  unfold same_configuration.
  split; [done|]. split; [done|]. split; [done|].
  rewrite ttl_cache.
  split; [|split]; [apply get_evicts_only_expired..
                   |apply all_ts_with_entries].
Qed.

End Delete.

(** ** Reads *)

Lemma in_the_past_later (now now' : Z) (e : option Date) :
  (now <= now')%Z -> in_the_past now e = true -> in_the_past now' e = true.
Proof.
  destruct e as [[t|]|]; simpl; try done.
  intros Hle Hp. apply Z.ltb_lt in Hp. apply Z.ltb_lt. lia.
Qed.

Section Reads.
Context `{Host}.

(** What is [null] or [undefined] has no timestamp: no read evicts it. *)
Lemma nullish_slot_expires (s : slot) :
  nullish s = true -> slot_expires s = None.
Proof. destruct s as [e|[]]; done. Qed.

(** Entries a read evicted at [now] are swept at a later reading: sweeping
    the store after the read gives what sweeping the store before gives. *)
Lemma swept_after_eviction (now now' : Z) (c c' : TS.Cache) :
  (now <= now')%Z -> evicts_only_expired now c c' ->
  swept now' (entries c') = swept now' (entries c).
Proof.
  intros Hle [_ Hev]. apply map_eq. intros k. rewrite !swept_lookup.
  destruct (Hev k) as [->|[-> (s & -> & Hp)]]; [done|].
  cbn [mbind option_bind]. unfold sweep_slot.
  by rewrite (in_the_past_later now now' _ Hle Hp).
Qed.

Lemma no_nullish_after_eviction (now : Z) (c c' : TS.Cache) :
  evicts_only_expired now c c' ->
  no_nullish (entries c') <-> no_nullish (entries c).
Proof.
  intros [_ Hev]. split; intros Hok k s Hs.
  - destruct (Hev k) as [Heq|[_ (s' & Hs' & Hp)]].
    + apply (Hok k). by rewrite Heq.
    + assert (s' = s) as -> by congruence.
      destruct (nullish s) eqn:Hn; [|done].
      by rewrite (nullish_slot_expires s Hn) in Hp.
  - destruct (Hev k) as [Heq|[Hnone _]]; [|congruence].
    apply (Hok k). by rewrite <- Heq.
Qed.

Lemma get_after_eviction (now now' : Z) (k : string) (c c' : TS.Cache) :
  (now <= now')%Z -> evicts_only_expired now c c' ->
  (TS.get now' k c').1 = (TS.get now' k c).1.
Proof.
  intros Hle [_ Hev]. rewrite !get_unfold.
  destruct (Hev k) as [->|[-> (s & -> & Hp)]]; [|].
  - destruct (entries c !! k) as [s|]; [|done].
    by destruct (in_the_past now' (slot_expires s)).
  - by rewrite (in_the_past_later now now' _ Hle Hp).
Qed.

Lemma all_after_eviction (now now' : Z) (c c' : TS.Cache) :
  (now <= now')%Z -> evicts_only_expired now c c' ->
  (TS.all now' c').1 = (TS.all now' c).1.
Proof.
  intros Hle Hev.
  pose proof (no_nullish_after_eviction now c c' Hev) as Hiff.
  destruct (TS.all now' c).1 as [m|] eqn:Hc.
  - destruct (all_ts_returned now' c m Hc) as [Hok ->].
    rewrite (all_ts_clean now' c' (proj2 Hiff Hok)). cbn [fst].
    by rewrite (swept_after_eviction now now' c c' Hle Hev).
  - destruct (TS.all now' c').1 as [m'|] eqn:Hc'; [|done].
    destruct (all_ts_returned now' c' m' Hc') as [Hok' _].
    by rewrite (all_ts_clean now' c (proj1 Hiff Hok')) in Hc.
Qed.

(** X9. The lazy eviction of [get] and [ttl] cannot be observed: with a
    clock that does not run backwards, a [get] or [ttl] at [now] changes
    the result of no [get] and no [all] made at [now'] or later. *)
Theorem reads_unobservable (now now' : Z) (k k' : string) (c : TS.Cache) :
  (now <= now')%Z ->
  let after_get := (TS.get now k' c).2 in
  let after_ttl := (TS.ttl now k' c).2 in
  ((TS.get now' k after_get).1 = (TS.get now' k c).1
   /\ (TS.all now' after_get).1 = (TS.all now' c).1)
  /\ ((TS.get now' k after_ttl).1 = (TS.get now' k c).1
      /\ (TS.all now' after_ttl).1 = (TS.all now' c).1).
Proof.
  intros Hle after_get after_ttl.
  unfold after_ttl. rewrite ttl_cache. fold after_get.
  pose proof (get_evicts_only_expired now k' c) as Hget.
  split; split;
    first [by apply (get_after_eviction now)
          | by apply (all_after_eviction now)].
Qed.

(** X10. At one clock reading [get] and [ttl] are idempotent: the second
    call returns what the first did and leaves the cache the first left. *)
Theorem reads_idempotent (now : Z) (k : string) (c : TS.Cache) :
  TS.get now k (TS.get now k c).2 = TS.get now k c
  /\ TS.ttl now k (TS.ttl now k c).2 = TS.ttl now k c.
Proof.
  assert (Hget : TS.get now k (TS.get now k c).2 = TS.get now k c).
  { rewrite (get_unfold now k c).
    destruct (entries c !! k) as [s|] eqn:Hk.
    - destruct (in_the_past now (slot_expires s)) eqn:He; cbn [snd].
      + by rewrite get_unfold, entries_evicted, lookup_delete_eq.
      + by rewrite get_unfold, Hk, He.
    - cbn [snd]. by rewrite get_unfold, Hk. }
  split; [done|].
  assert (Hinv : forall c0,
            TS.ttl now k c0
            = ({| TtlInfo.key := k;
                  TtlInfo.expires := (TS.invalidateKey now k c0).1 |},
               (TS.invalidateKey now k c0).2)) by done.
  assert (Hfix : TS.invalidateKey now k (TS.invalidateKey now k c).2
                 = TS.invalidateKey now k c).
  { destruct (entries c !! k) as [s|] eqn:Hk.
    - destruct (in_the_past now (slot_expires s)) eqn:Hp.
      + assert (Hfirst : TS.invalidateKey now k c = (JNull, evicted k c)).
        { unfold TS.invalidateKey, flatCache.getKey. fold (entries c).
          rewrite Hk. destruct (slot_truthy s) eqn:Hs.
          - destruct (slot_expires s) as [exp|] eqn:He; [|done].
            by rewrite truthy_isExpired, Hp.
          - by rewrite (falsy_slot_expires s Hs) in Hp. }
        rewrite Hfirst. cbn [snd].
        unfold TS.invalidateKey, flatCache.getKey.
        fold (entries (evicted k c)).
        by rewrite entries_evicted, lookup_delete_eq.
      + by rewrite invalidateKey_cache, Hk, Hp.
    - by rewrite invalidateKey_cache, Hk. }
  rewrite (Hinv c), (Hinv _). cbn [snd]. by rewrite Hfix.
Qed.

(** X11. Where [all()] returns, its object agrees with [get] at the same
    clock reading: a key it does not hold is one for which [get] returns
    [null], and a value it holds under a key whose stored entry is truthy
    (an envelope, for one) is the value [get] returns. *)
Theorem all_agrees_with_get (now : Z) (k : string) (c : TS.Cache)
    (m : gmap string slot) :
  (TS.all now c).1 = Returned m ->
  (m !! k = None -> (TS.get now k c).1 = JNull)
  /\ (forall s v, entries c !! k = Some s -> slot_truthy s = true ->
        m !! k = Some (Unwrapped v) -> (TS.get now k c).1 = v).
Proof.
  intros Hret. destruct (all_ts_returned now c m Hret) as [_ ->].
  rewrite swept_lookup, get_unfold.
  destruct (entries c !! k) as [s|] eqn:Hk; cbn [mbind option_bind].
  - unfold sweep_slot.
    destruct (in_the_past now (slot_expires s)); cbn [fst]; split; try done.
    intros s' v [= <-] Hs [= <-]. by rewrite Hs.
  - split; done.
Qed.

(** X12. Where [all()] returns, in both implementations, the object it
    returns is the mapping the store then holds; its keys are keys the
    store held before; and no property of it is still an envelope. *)
Theorem all_keys (now : Z) (c : TS.Cache) (cj : JS.Cache)
    (m mj : gmap string slot) :
  ((TS.all now c).1 = Returned m ->
   m = entries (TS.all now c).2
   /\ dom m ⊆ dom (entries c)
   /\ forall k e, m !! k <> Some (Wrapped e))
  /\ ((JS.all now cj).1 = Returned mj ->
      mj = entries_js (JS.all now cj).2
      /\ dom mj ⊆ dom (entries_js cj)
      /\ forall k e, mj !! k <> Some (Wrapped e)).
Proof.
  assert (Hswept : forall m0 : gmap string slot,
            dom (swept now m0) ⊆ dom m0
            /\ forall k e, swept now m0 !! k <> Some (Wrapped e)).
  { intros m0. split.
    - intros k. rewrite !elem_of_dom, swept_lookup.
      destruct (m0 !! k); [by eexists|]. by intros [? ?].
    - intros k e. rewrite swept_lookup.
      destruct (m0 !! k) as [s|]; [|done]. cbn [mbind option_bind].
      unfold sweep_slot. by destruct (in_the_past now (slot_expires s)). }
  split.
  - intros Hret. destruct (all_ts_returned now c m Hret) as [Hok ->].
    rewrite (all_ts_clean now c Hok). cbn [snd].
    rewrite entries_with_entries. split; [done|]. apply Hswept.
  - rewrite all_js_as_sweep. cbn [fst snd].
    destruct (foldl (sweep_step now) (false, entries_js cj)
                (keys (entries_js cj))) as [b m'] eqn:Hfold.
    cbn [fst snd]. destruct b; [done|]. intros [= <-].
    rewrite entries_js_with_entries. split; [done|].
    assert (Hok : no_nullish (entries_js cj)).
    { apply (proj2 (sweep_keys now (entries_js cj))). by rewrite Hfold. }
    rewrite (proj1 (sweep_keys now (entries_js cj)) Hok) in Hfold.
    injection Hfold as <-. apply Hswept.
Qed.

End Reads.

(** ** The two implementations side by side *)

Section SideBySide.
Context `{Host}.

Lemma get_js_unfold (now : Z) (k : string) (c : JS.Cache) :
  JS.get now k c =
  match entries_js c !! k with
  | Some s =>
      if in_the_past now (slot_expires s)
      then (JNull, with_entries_js c (delete k (entries_js c)))
      else (if slot_truthy s then slot_value s else JNull, c)
  | None => (JNull, c)
  end.
Proof.
  unfold JS.get, JS.__invalidateKey, flatCache.getKey. fold (entries_js c).
  destruct (entries_js c !! k) as [s|] eqn:Hk; cbn [snd].
  - destruct (slot_truthy s) eqn:Hs.
    + destruct (slot_expires s) as [exp|] eqn:He; cbn [snd].
      * rewrite truthy___isExpired.
        destruct (in_the_past now (Some exp)); cbn [snd].
        -- unfold flatCache.removeKey. cbn [snd JS.cache JS.with_cache
             flatCache.persisted flatCache.with_persisted].
           by rewrite lookup_delete_eq.
        -- fold (entries_js c). by rewrite Hk, Hs.
      * cbn [in_the_past]. fold (entries_js c). by rewrite Hk, Hs.
    + rewrite (falsy_slot_expires s Hs). cbn [snd in_the_past].
      fold (entries_js c). by rewrite Hk, Hs.
  - fold (entries_js c). by rewrite Hk.
Qed.

(** X13. Started from caches that hold the same entries and apply the same
    default TTL, the JavaScript file and index.ts stay in step: [set],
    [get], [del] and [all] leave the same entries in the two stores, [get]
    returns the same value, and [all()] ends the same way in both, with the
    same object when it returns. *)
Theorem js_in_step_with_ts (now : Z) (k : string) (v : jsval)
    (t : ttl_input) (cj : JS.Cache) (ct : TS.Cache) :
  same_state cj ct ->
  same_state (JS.set now k v t cj) (TS.set now k v t ct)
  /\ ((JS.get now k cj).1 = (TS.get now k ct).1
      /\ same_state (JS.get now k cj).2 (TS.get now k ct).2)
  /\ same_state (JS.del k cj).2 (TS.del k ct).2
  /\ (same_state (JS.all now cj).2 (TS.all now ct).2
      /\ (JS.all now cj).1 = (TS.all now ct).1).
Proof.
  intros [Hent Hdef].
  split; [|split; [|split]].
  - split; [|done]. rewrite entries_set. unfold TS.effectiveTTL.
    rewrite <- Hent, <- Hdef. reflexivity.
  - rewrite get_js_unfold, get_unfold, Hent.
    destruct (entries ct !! k) as [s|]; [|done].
    destruct (in_the_past now (slot_expires s)); cbn [fst snd]; [|done].
    split; [done|]. split; [|done].
    rewrite entries_evicted, <- Hent. reflexivity.
  - split; [|done]. rewrite del_as_with_entries, entries_with_entries.
    rewrite <- Hent. reflexivity.
  - rewrite all_js_as_sweep, all_ts_as_sweep, Hent. cbn [fst snd].
    split; [|done]. split; [|done].
    by rewrite entries_js_with_entries, entries_with_entries.
Qed.

(** X14. [ttl(k)] of the JavaScript file reports what index.ts reports,
    except that [expires] is [undefined] where index.ts has [null] for a
    key with no entry or an entry with no expiry timestamp. *)
Theorem ttl_js_undefined_for_null (now : Z) (k : string) (cj : JS.Cache)
    (ct : TS.Cache) :
  same_state cj ct ->
  TtlInfo.key (JS.ttl now k cj).1 = TtlInfo.key (TS.ttl now k ct).1
  /\ match entries ct !! k ≫= slot_expires with
     | Some _ =>
         TtlInfo.expires (JS.ttl now k cj).1
         = TtlInfo.expires (TS.ttl now k ct).1
     | None =>
         TtlInfo.expires (JS.ttl now k cj).1 = JUndefined
         /\ TtlInfo.expires (TS.ttl now k ct).1 = JNull
     end.
Proof.
  intros [Hent _]. split; [done|].
  unfold JS.ttl, TS.ttl, JS.__invalidateKey, TS.invalidateKey,
    flatCache.getKey.
  fold (entries_js cj) (entries ct). rewrite Hent.
  destruct (entries ct !! k) as [s|]; cbn [mbind option_bind]; [|done].
  destruct (slot_truthy s) eqn:Hs.
  - destruct (slot_expires s) as [exp|]; cbn [fst TtlInfo.expires]; [|done].
    rewrite truthy_isExpired, truthy___isExpired.
    by destruct (in_the_past now (Some exp)).
  - by rewrite (falsy_slot_expires s Hs).
Qed.

(** X15. What the constructors make of the [ttl] option. index.ts keeps
    [null] exactly when the option is left out, [undefined] or NaN, and the
    number otherwise. The JavaScript file keeps the same as index.ts for an
    option that is given, and 0 where index.ts keeps [null] for an option
    that is left out. In every case a [set] with no TTL applies the same
    default in both. With no directory given and a namespace other than
    the empty string, the two open the same store, so the two caches are in
    the same state. *)
Theorem constructors_default_ttl (options : TS.CacheOptions) :
  (TS.defaultTTL (TS.constructor options) = TNull
   <-> isNaN (Number (default TUndefined (TS.o_ttl options))) = true)
  /\ (isNaN (Number (default TUndefined (TS.o_ttl options))) = false ->
      TS.defaultTTL (TS.constructor options)
      = TNum (Number (default TUndefined (TS.o_ttl options))))
  /\ TS.effectiveTTL TUndefined (TS.constructor options)
     = to_num (default TUndefined (TS.o_ttl options))
  /\ (forall t, TS.o_ttl options = Some t ->
        JS.defaultTTL (JS.constructor options)
        = TS.defaultTTL (TS.constructor options))
  /\ (TS.o_ttl options = None ->
      TS.defaultTTL (TS.constructor options) = TNull
      /\ JS.defaultTTL (JS.constructor options) = TNum (Fin 0))
  /\ to_num (JS.defaultTTL (JS.constructor options))
     = to_num (TS.defaultTTL (TS.constructor options))
  /\ (TS.o_dir options = None -> TS.o_ns options <> Some "" ->
      JS.cache (JS.constructor options) = TS.cache (TS.constructor options)
      /\ same_state (JS.constructor options) (TS.constructor options)).
Proof.
  destruct options as [ons odir ottl]. cbn [TS.o_ttl TS.o_dir TS.o_ns].
  assert (Hnum : to_num (JS.defaultTTL (JS.constructor
                   {| TS.o_ns := ons; TS.o_dir := odir; TS.o_ttl := ottl |}))
                 = to_num (TS.defaultTTL (TS.constructor
                   {| TS.o_ns := ons; TS.o_dir := odir; TS.o_ttl := ottl |})))
    by by destruct ottl as [[| |[| | |q]]|].
  split; [|split; [|split; [|split; [|split; [|split]]]]].
  - unfold TS.constructor. cbn [TS.defaultTTL TS.o_ttl].
    destruct (isNaN (Number (default TUndefined ottl))); by split.
  - unfold TS.constructor. cbn [TS.defaultTTL TS.o_ttl]. by intros ->.
  - by destruct ottl as [[| |[| | |q]]|].
  - intros t ->. unfold JS.constructor, TS.constructor.
    cbn [JS.defaultTTL TS.defaultTTL TS.o_ttl default from_option id].
    by destruct (isNaN (Number t)).
  - by intros ->.
  - exact Hnum.
  - intros -> Hns.
    assert (Hname : String.eqb (default "default" ons) "" = false).
    { apply String.eqb_neq. destruct ons as [n|]; [|done]. simpl. congruence. }
    assert (Hcache : JS.cache (JS.constructor
                        {| TS.o_ns := ons; TS.o_dir := None;
                           TS.o_ttl := ottl |})
                     = TS.cache (TS.constructor
                        {| TS.o_ns := ons; TS.o_dir := None;
                           TS.o_ttl := ottl |})).
    { unfold JS.constructor, TS.constructor.
      cbn [JS.cache TS.cache TS.o_ns TS.o_dir]. by rewrite Hname. }
    split; [done|]. split; [|exact Hnum].
    unfold entries_js, entries. by rewrite Hcache.
Qed.

(** X16. [del(key)] of the JavaScript file returns what the store's
    [removeKey] returns, which is [undefined] whether or not the key had an
    entry; the key has no entry afterwards, a [get] of it returns [null],
    and [del] of a key with no entry leaves the cache as it was. *)
Theorem del_js_removes (now : Z) (k : string) (c : JS.Cache) :
  (JS.del k c).1 = JUndefined
  /\ (JS.del k c).2 = with_entries_js c (delete k (entries_js c))
  /\ JS.get now k (JS.del k c).2 = (JNull, (JS.del k c).2)
  /\ (entries_js c !! k = None -> (JS.del k c).2 = c).
Proof.
  assert (Hcache : (JS.del k c).2
                   = with_entries_js c (delete k (entries_js c)))
    by reflexivity.
  split; [done|]. split; [done|]. rewrite Hcache. split.
  - by rewrite get_js_unfold, entries_js_with_entries, lookup_delete_eq.
  - intros Hk. rewrite delete_id by done. apply with_entries_js_id.
Qed.

(** X17. [all()] of index.ts, for every state of the store. If something
    stored is [null] or [undefined] it ends in a TypeError. Otherwise it
    returns the swept mapping and leaves that same mapping in the store:
    an envelope whose timestamp lies in the past is gone, an envelope that
    has not expired has become its plain value, and a key with no entry
    stays without one. *)
Theorem all_ts_sweeps_the_store (now : Z) (c : TS.Cache) :
  (no_nullish (entries c) ->
   TS.all now c
   = (Returned (swept now (entries c)),
      with_entries c (swept now (entries c))))
  /\ (forall k s, entries c !! k = Some s -> nullish s = true ->
        (TS.all now c).1 = TypeError)
  /\ (forall k e, entries c !! k = Some (Wrapped e) ->
        swept now (entries c) !! k
        = if in_the_past now (expires e) then None
          else Some (Unwrapped (value e)))
  /\ (forall k, entries c !! k = None -> swept now (entries c) !! k = None).
Proof.
  split; [apply all_ts_clean|]. split; [|split].
  - intros k s Hs Hn.
    destruct (TS.all now c).1 as [m|] eqn:Hret; [|done].
    destruct (all_ts_returned now c m Hret) as [Hok _].
    rewrite (Hok k s Hs) in Hn. done.
  - intros k e Hk. rewrite swept_lookup, Hk. done.
  - intros k Hk. by rewrite swept_lookup, Hk.
Qed.

(** X18. The constructor of index.ts. The namespace is the one given, or
    ["default"]. A directory that is given, is not the empty string and has
    an existing parent is where the store is opened; in every other case
    the store is opened at tmpdir/cache/namespace. The cache starts with
    what is persisted for that namespace at that place. *)
Theorem constructor_ts_opens_dir (options : TS.CacheOptions) :
  let c := TS.constructor options in
  let fallback := join [tmpdir; "cache"; TS.ns c] in
  TS.ns c = default "default" (TS.o_ns options)
  /\ TS.cache c = flatCache.load (TS.ns c) (TS.dir c)
  /\ entries c = disk (TS.ns c) (TS.dir c)
  /\ (forall d, TS.o_dir options = Some d -> d <> "" ->
        existsSync (dirname d) = true -> TS.dir c = d)
  /\ (forall d, TS.o_dir options = Some d ->
        d = "" \/ existsSync (dirname d) = false -> TS.dir c = fallback)
  /\ (TS.o_dir options = None -> TS.dir c = fallback).
Proof.
  intros c fallback. unfold c, fallback, TS.constructor.
  cbn [TS.ns TS.dir TS.cache].
  split; [done|]. split; [done|]. split; [done|].
  split; [|split].
  - intros d -> Hd He. apply String.eqb_neq in Hd. by rewrite Hd, He.
  - intros d -> [->|He]; [done|]. by rewrite He, andb_false_r.
  - by intros ->.
Qed.

End SideBySide.

(** ** The further properties at concrete inputs *)

(** X1 on the test suite's key: set for one second at clock reading 1000,
    read at 2000 and at 3000. *)
Lemma ttl_elapses_witness :
  @TS.get sample_host 2000 "key"
    (TS.set 1000 "key" (JStr "value") (seconds 1) fresh)
  = (JStr "value", TS.set 1000 "key" (JStr "value") (seconds 1) fresh)
  /\ @TS.get sample_host 3000 "key"
       (TS.set 1000 "key" (JStr "value") (seconds 1) fresh)
     = (JNull, evicted "key" fresh).
Proof.
  assert (Hn : 1%Z <> 0%Z) by lia.
  assert (Hr : (Z.abs (1000 + 1000 * 1) <= max_time)%Z)
    by (unfold max_time; lia).
  split.
  - apply (proj1 (@ttl_elapses sample_host 1000 2000 1 "key" (JStr "value")
                    fresh Hn Hr)). lia.
  - apply (proj2 (@ttl_elapses sample_host 1000 3000 1 "key" (JStr "value")
                    fresh Hn Hr)). lia.
Defined.

(** X2 on [set("a", 1)] of a fresh cache, read a long time after. *)
Lemma no_ttl_never_expires_witness :
  @TS.get sample_host 4102444800000 "a" plain = (JNum (Fin 1), plain).
Proof.
  apply (@no_ttl_never_expires sample_host 1000 4102444800000 "a"
           (JNum (Fin 1)) TUndefined fresh); reflexivity.
Defined.

(** X3 on [set("a", 1, Infinity)]. *)
Lemma infinite_ttl_never_expires_witness :
  entries (TS.set 1000 "a" (JNum (Fin 1)) (TNum PosInf) fresh) !! "a"
  = Some (Wrapped {| expires := Some InvalidDate; value := JNum (Fin 1) |})
  /\ @TS.get sample_host 4102444800000 "a"
       (TS.set 1000 "a" (JNum (Fin 1)) (TNum PosInf) fresh)
     = (JNum (Fin 1), TS.set 1000 "a" (JNum (Fin 1)) (TNum PosInf) fresh).
Proof.
  apply (@infinite_ttl_never_expires sample_host 1000 4102444800000 "a"
           (JNum (Fin 1)) PosInf fresh).
  left. reflexivity.
Defined.

(** X4 on the test suite's key, half a second before it expires. *)
Lemma ttl_after_set_witness :
  @TS.ttl sample_host 1500 "key"
    (TS.set 1000 "key" (JStr "value") (seconds 1) fresh)
  = ({| TtlInfo.key := "key";
        TtlInfo.expires :=
          JStr (@humanize sample_host
                  (Fin (inject_Z (1000 + 1000 * 1 - 1500)))) |},
     TS.set 1000 "key" (JStr "value") (seconds 1) fresh).
Proof.
  apply (@ttl_after_set sample_host 1000 1500 1 "key" (JStr "value") fresh).
  - exact sample_humanize_nonempty.
  - lia.
  - unfold max_time. lia.
  - lia.
Defined.


(** X6 on a key that was never set. *)
Lemma del_then_get_witness :
  (TS.del "nonexistent" fresh).2 = fresh.
Proof.
  apply (proj1 (proj2 (proj2
           (@del_then_get sample_host 0 "nonexistent" JNull TUndefined
              fresh)))).
  vm_compute. reflexivity.
Defined.

(** X9 on a cache holding an expired key and a key with no expiry: the
    expired key is read at 3000, then the cache is read at 4000. *)
Lemma reads_unobservable_witness :
  (@TS.get sample_host 4000 "a" (@TS.get sample_host 3000 "key" mixed).2).1
  = (@TS.get sample_host 4000 "a" mixed).1
  /\ (@TS.all sample_host 4000 (@TS.ttl sample_host 3000 "key" mixed).2).1
     = (@TS.all sample_host 4000 mixed).1.
Proof.
  assert (Hle : (3000 <= 4000)%Z) by lia.
  pose proof (@reads_unobservable sample_host 3000 4000 "a" "key" mixed Hle)
    as Hreads.
  split.
  - exact (proj1 (proj1 Hreads)).
  - exact (proj2 (proj2 Hreads)).
Defined.

(** X11 on the same cache while the expiring key is live. *)
Lemma all_agrees_with_get_witness :
  (@TS.get sample_host 1500 "key" mixed).1 = JStr "value".
Proof.
  assert (Hret : (@TS.all sample_host 1500 mixed).1
                 = Returned {[ "a" := Unwrapped (JNum (Fin 1));
                               "key" := Unwrapped (JStr "value") ]})
    by (vm_compute; reflexivity).
  apply (proj2 (@all_agrees_with_get sample_host 1500 "key" mixed _ Hret)
           (Wrapped {| expires := Some (ValidDate 2000);
                       value := JStr "value" |})).
  - vm_compute. reflexivity.
  - reflexivity.
  - vm_compute. reflexivity.
Defined.

(** X13 on the two fresh caches and the test suite's key. *)
Lemma js_in_step_with_ts_witness :
  same_state (JS.set 1000 "key" (JStr "value") (seconds 1) fresh_js)
    (TS.set 1000 "key" (JStr "value") (seconds 1) fresh)
  /\ (@JS.get sample_host 1000 "key" fresh_js).1
     = (@TS.get sample_host 1000 "key" fresh).1
  /\ (@JS.all sample_host 1000 fresh_js).1
     = (@TS.all sample_host 1000 fresh).1.
Proof.
  assert (Hs : same_state fresh_js fresh) by (split; reflexivity).
  pose proof (@js_in_step_with_ts sample_host 1000 "key" (JStr "value")
                (seconds 1) fresh_js fresh Hs) as Hstep.
  split; [|split].
  - exact (proj1 Hstep).
  - exact (proj1 (proj1 (proj2 Hstep))).
  - exact (proj2 (proj2 (proj2 (proj2 Hstep)))).
Defined.

(** X14 on a key that was never set. *)
Lemma ttl_js_undefined_for_null_witness :
  TtlInfo.expires (@JS.ttl sample_host 1000 "nonexistent" fresh_js).1
  = JUndefined
  /\ TtlInfo.expires (@TS.ttl sample_host 1000 "nonexistent" fresh).1 = JNull.
Proof.
  assert (Hs : same_state fresh_js fresh) by (split; reflexivity).
  exact (proj2 (@ttl_js_undefined_for_null sample_host 1000 "nonexistent"
                  fresh_js fresh Hs)).
Defined.

(** X15 on [{ ns: "jobs", ttl: 60 }] and on no options at all. *)
Lemma constructors_default_ttl_witness :
  TS.defaultTTL (@TS.constructor sample_host jobs_options) = TNum (Fin 60)
  /\ JS.defaultTTL (@JS.constructor sample_host jobs_options)
     = TS.defaultTTL (@TS.constructor sample_host jobs_options)
  /\ (TS.defaultTTL (@TS.constructor sample_host no_options) = TNull
      /\ JS.defaultTTL (@JS.constructor sample_host no_options)
         = TNum (Fin 0))
  /\ JS.cache (@JS.constructor sample_host jobs_options)
     = TS.cache (@TS.constructor sample_host jobs_options).
Proof.
  pose proof (@constructors_default_ttl sample_host jobs_options) as Hjobs.
  pose proof (@constructors_default_ttl sample_host no_options) as Hnone.
  split; [|split; [|split]].
  - apply (proj1 (proj2 Hjobs)). reflexivity.
  - apply (proj1 (proj2 (proj2 (proj2 Hjobs))) (TNum (Fin 60))). reflexivity.
  - apply (proj1 (proj2 (proj2 (proj2 (proj2 Hnone))))). reflexivity.
  - apply (proj2 (proj2 (proj2 (proj2 (proj2 (proj2 Hjobs)))))).
    + reflexivity.
    + discriminate.
Defined.

(** X16 on a key that was set and on one that was not. *)
Lemma del_js_removes_witness :
  (JS.del "key" stale_js).1 = JUndefined
  /\ (JS.del "nonexistent" fresh_js).1 = JUndefined
  /\ (JS.del "nonexistent" fresh_js).2 = fresh_js.
Proof.
  split; [|split].
  - exact (proj1 (@del_js_removes sample_host 0 "key" stale_js)).
  - exact (proj1 (@del_js_removes sample_host 0 "nonexistent" fresh_js)).
  - apply (proj2 (proj2 (proj2
             (@del_js_removes sample_host 0 "nonexistent" fresh_js)))).
    reflexivity.
Defined.

(** X17 on the cache holding an expired key and a key with no expiry, and
    on the cache [set("n", null)] after a first [all()], whose store holds
    a bare [null]. *)
Lemma all_ts_sweeps_the_store_witness :
  (@TS.all sample_host 5000 mixed).1
  = Returned {[ "a" := Unwrapped (JNum (Fin 1)) ]}
  /\ (@TS.all sample_host 5000 (@TS.all sample_host 5000 holds_null).2).1
     = TypeError.
Proof.
  split.
  - assert (Hok : no_nullish (entries mixed)).
    { intros k s Hs. unfold mixed, stale in Hs. rewrite !entries_set in Hs.
      apply lookup_insert_Some in Hs as [[_ <-]|[_ Hs]]; [done|].
      apply lookup_insert_Some in Hs as [[_ <-]|[_ Hs]]; [done|].
      done. }
    rewrite (proj1 (@all_ts_sweeps_the_store sample_host 5000 mixed) Hok).
    vm_compute. reflexivity.
  - apply (proj1 (proj2 (@all_ts_sweeps_the_store sample_host 5000
                           (@TS.all sample_host 5000 holds_null).2))
             "n" (Unwrapped JNull)).
    + vm_compute. reflexivity.
    + reflexivity.
Defined.

(** X18 on [{ dir: "/var/data" }], where [/var] exists. *)
Lemma constructor_ts_opens_dir_witness :
  TS.dir (@TS.constructor sample_host with_dir) = "/var/data".
Proof.
  apply (proj1 (proj2 (proj2 (proj2
           (@constructor_ts_opens_dir sample_host with_dir))))
           "/var/data").
  - reflexivity.
  - discriminate.
  - reflexivity.
Defined.
